(** * The round_robin load-balancing policy of gRPC core

    A shallow embedding of
    [src/core/ext/filters/client_channel/lb_policy/round_robin/round_robin.cc]
    and the properties of its picker, its per-subchannel logical state
    machine, its state counters and its promotion/aggregation procedure.

    Conventions of the embedding:
    - [size_t] values are integers in [Z]; every [++] and [+ 1] on them is
      written with its wrap-around at [2^64];
    - a failed [GPR_ASSERT], a null dereference and a division by zero make
      the enclosing operation return [None] (the process does not continue);
    - subchannel lists live in a store indexed by their address, since the
      policy and the list methods compare and share them by pointer;
    - calls made to the channel control helper and to the subchannels are
      appended to a trace;
    - [rand()] and the raw state that a subchannel reports when polled are
      inputs of the operations that use them. *)

From Stdlib Require Import ZArith Lia.
From stdpp Require Import base option list gmap strings.

(** ** Connectivity states, statuses *)

Inductive grpc_connectivity_state :=
  | GRPC_CHANNEL_IDLE
  | GRPC_CHANNEL_CONNECTING
  | GRPC_CHANNEL_READY
  | GRPC_CHANNEL_TRANSIENT_FAILURE
  | GRPC_CHANNEL_SHUTDOWN.

#[global] Instance grpc_connectivity_state_eq_dec :
  EqDecision grpc_connectivity_state.
Proof. solve_decision. Defined.

Inductive StatusCode := kOk | kUnavailable | kOtherCode (c : nat).

#[global] Instance StatusCode_eq_dec : EqDecision StatusCode.
Proof. solve_decision. Defined.

Record Status := mkStatus { status_code : StatusCode; status_message : string }.

#[global] Instance Status_eq_dec : EqDecision Status.
Proof. solve_decision. Defined.

(** [absl::Status()] and [absl::UnavailableError(msg)]. *)
Definition OkStatus : Status := mkStatus kOk "".
Definition UnavailableError (msg : string) : Status := mkStatus kUnavailable msg.

(** ** Machine integers *)

Definition size_t_modulus : Z := 2 ^ 64.
Definition to_size_t (z : Z) : Z := z mod size_t_modulus.

(** [GPR_ASSERT(b)]: aborts when [b] is false. *)
Definition GPR_ASSERT (b : bool) : option unit := if b then Some () else None.

(** ** Subchannels and pickers *)

Definition ServerAddress := nat.
Definition SubchannelInterface := nat.

Inductive PickResult :=
  | Complete (subchannel : SubchannelInterface)
  | Queue
  | Fail (status : Status).

Record Picker := mkPicker {
  last_picked_index_ : Z;
  subchannels_ : list SubchannelInterface
}.

(** [subchannels_.size()] *)
Definition Picker_size (pk : Picker) : Z := Z.of_nat (length (subchannels_ pk)).

(** [RoundRobin::Picker::Pick]:
    [last_picked_index_ = (last_picked_index_ + 1) % subchannels_.size();
     return PickResult::Complete(subchannels_[last_picked_index_]);] *)
Definition Pick (pk : Picker) : option (PickResult * Picker) :=
  if decide (Picker_size pk = 0%Z) then None
  else
    let idx := (to_size_t (last_picked_index_ pk + 1) mod Picker_size pk)%Z in
    sc ← subchannels_ pk !! Z.to_nat idx;
    Some (Complete sc, mkPicker idx (subchannels_ pk)).

(** [k] consecutive calls of [Pick] on one picker, with the subchannels they
    return, in order. *)
Fixpoint Pick_n (k : nat) (pk : Picker)
  : option (list SubchannelInterface * Picker) :=
  match k with
  | O => Some ([], pk)
  | S k' =>
      match Pick pk with
      | Some (Complete sc, pk') =>
          '(scs, pk'') ← Pick_n k' pk'; Some (sc :: scs, pk'')
      | _ => None
      end
  end.

(** The pickers of [SubchannelPicker] that the policy hands to the helper. *)
Inductive SubchannelPicker :=
  | RoundRobinPicker (pk : Picker)
  | QueuePicker
  | TransientFailurePicker (status : Status).

(** Modelled from the spec: the queue and fail-fast placeholder pickers are
    not defined in round_robin.cc; the first defers every call, the second
    fails every call with the status it carries. *)
Definition SubchannelPicker_Pick (p : SubchannelPicker)
  : option (PickResult * SubchannelPicker) :=
  match p with
  | RoundRobinPicker pk =>
      '(r, pk') ← Pick pk; Some (r, RoundRobinPicker pk')
  | QueuePicker => Some (Queue, QueuePicker)
  | TransientFailurePicker st => Some (Fail st, TransientFailurePicker st)
  end.

(** ** Subchannel data and subchannel lists *)

Record RoundRobinSubchannelData := mkSubchannelData {
  subchannel_ : option SubchannelInterface;
  pending_watcher_ : bool;
  logical_connectivity_state_ : grpc_connectivity_state
}.

(** [sd->connectivity_state()] *)
Definition connectivity_state (sd : RoundRobinSubchannelData) :=
  logical_connectivity_state_ sd.

Record RoundRobinSubchannelList := mkSubchannelList {
  subchannel_data_ : list RoundRobinSubchannelData;
  num_ready_ : Z;
  num_connecting_ : Z;
  num_transient_failure_ : Z
}.

(** [num_subchannels()] and [subchannel(i)] of the base class. *)
Definition num_subchannels (l : RoundRobinSubchannelList) : Z :=
  Z.of_nat (length (subchannel_data_ l)).
Definition subchannel (l : RoundRobinSubchannelList) (i : nat)
  : option RoundRobinSubchannelData := subchannel_data_ l !! i.

(** The loop of [RoundRobin::Picker::Picker]: the subchannels of the READY
    entries, in list order; [sd->subchannel()->Ref()] dereferences the
    subchannel pointer. *)
Fixpoint ready_subchannels (sds : list RoundRobinSubchannelData)
  : option (list SubchannelInterface) :=
  match sds with
  | [] => Some []
  | sd :: rest =>
      if decide (connectivity_state sd = GRPC_CHANNEL_READY) then
        sc ← subchannel_ sd;
        scs ← ready_subchannels rest;
        Some (sc :: scs)
      else ready_subchannels rest
  end.

(** [RoundRobin::Picker::Picker]; [rnd] is the value returned by [rand()]:
    [last_picked_index_ = rand() % subchannels_.size();] *)
Definition Picker_ctor (subchannel_list : RoundRobinSubchannelList) (rnd : Z)
  : option Picker :=
  scs ← ready_subchannels (subchannel_data_ subchannel_list);
  if decide (Z.of_nat (length scs) = 0%Z) then None
  else Some (mkPicker (to_size_t rnd mod Z.of_nat (length scs))%Z scs).

(** ** State counters ([RoundRobinSubchannelList]) *)

Definition size_t_incr (n : Z) : Z := to_size_t (n + 1).
Definition size_t_decr (n : Z) : Z := to_size_t (n - 1).

Definition set_num_ready (n : Z) (l : RoundRobinSubchannelList) :=
  mkSubchannelList (subchannel_data_ l) n (num_connecting_ l)
                   (num_transient_failure_ l).
Definition set_num_connecting (n : Z) (l : RoundRobinSubchannelList) :=
  mkSubchannelList (subchannel_data_ l) (num_ready_ l) n
                   (num_transient_failure_ l).
Definition set_num_transient_failure (n : Z) (l : RoundRobinSubchannelList) :=
  mkSubchannelList (subchannel_data_ l) (num_ready_ l) (num_connecting_ l) n.

(** The first half of [UpdateStateCountersLocked]: leave [old_state]. *)
Definition counters_leave (old_state : grpc_connectivity_state)
    (l : RoundRobinSubchannelList) : option RoundRobinSubchannelList :=
  if decide (old_state = GRPC_CHANNEL_READY) then
    _ ← GPR_ASSERT (bool_decide (0 < num_ready_ l)%Z);
    Some (set_num_ready (size_t_decr (num_ready_ l)) l)
  else if decide (old_state = GRPC_CHANNEL_CONNECTING) then
    _ ← GPR_ASSERT (bool_decide (0 < num_connecting_ l)%Z);
    Some (set_num_connecting (size_t_decr (num_connecting_ l)) l)
  else if decide (old_state = GRPC_CHANNEL_TRANSIENT_FAILURE) then
    _ ← GPR_ASSERT (bool_decide (0 < num_transient_failure_ l)%Z);
    Some (set_num_transient_failure
            (size_t_decr (num_transient_failure_ l)) l)
  else Some l.

(** The second half of [UpdateStateCountersLocked]: enter [new_state]. *)
Definition counters_enter (new_state : grpc_connectivity_state)
    (l : RoundRobinSubchannelList) : RoundRobinSubchannelList :=
  if decide (new_state = GRPC_CHANNEL_READY) then
    set_num_ready (size_t_incr (num_ready_ l)) l
  else if decide (new_state = GRPC_CHANNEL_CONNECTING) then
    set_num_connecting (size_t_incr (num_connecting_ l)) l
  else if decide (new_state = GRPC_CHANNEL_TRANSIENT_FAILURE) then
    set_num_transient_failure (size_t_incr (num_transient_failure_ l)) l
  else l.

(** [RoundRobinSubchannelList::UpdateStateCountersLocked] *)
Definition UpdateStateCountersLocked
    (old_state new_state : grpc_connectivity_state)
    (l : RoundRobinSubchannelList) : option RoundRobinSubchannelList :=
  _ ← GPR_ASSERT (bool_decide (old_state ≠ GRPC_CHANNEL_SHUTDOWN));
  _ ← GPR_ASSERT (bool_decide (new_state ≠ GRPC_CHANNEL_SHUTDOWN));
  l' ← counters_leave old_state l;
  Some (counters_enter new_state l').

(** ** The logical state of one entry ([RoundRobinSubchannelData]) *)

Definition set_logical_connectivity_state
    (s : grpc_connectivity_state) (sd : RoundRobinSubchannelData) :=
  mkSubchannelData (subchannel_ sd) (pending_watcher_ sd) s.

Definition set_subchannel_data (sds : list RoundRobinSubchannelData)
    (l : RoundRobinSubchannelList) :=
  mkSubchannelList sds (num_ready_ l) (num_connecting_ l)
                   (num_transient_failure_ l).

(** [RoundRobinSubchannelData::UpdateLogicalConnectivityStateLocked], for
    the entry at index [i] of its list [l]; the result is the returned flag
    and the list afterwards. *)
Definition UpdateLogicalConnectivityStateLocked
    (i : nat) (connectivity_state : grpc_connectivity_state)
    (l : RoundRobinSubchannelList)
  : option (bool * RoundRobinSubchannelList) :=
  sd ← subchannel l i;
  if decide (logical_connectivity_state_ sd = GRPC_CHANNEL_TRANSIENT_FAILURE
             ∧ connectivity_state ≠ GRPC_CHANNEL_READY)
  then Some (false, l)
  else
    let connectivity_state :=
      if decide (connectivity_state = GRPC_CHANNEL_IDLE)
      then GRPC_CHANNEL_CONNECTING else connectivity_state in
    if decide (logical_connectivity_state_ sd = connectivity_state)
    then Some (false, l)
    else
      l' ← UpdateStateCountersLocked (logical_connectivity_state_ sd)
                                     connectivity_state l;
      Some (true,
            set_subchannel_data
              (<[i := set_logical_connectivity_state connectivity_state sd]>
                 (subchannel_data_ l')) l').

(** ** The policy and its surroundings *)

Definition ptr := nat.

Record RoundRobin := mkRoundRobin {
  subchannel_list_ : option ptr;
  latest_pending_subchannel_list_ : option ptr;
  shutdown_ : bool
}.

(** Calls that leave the policy: to the channel control helper
    ([UpdateState], [RequestReresolution]) and to a subchannel
    ([RequestConnection], [ResetBackoff]). *)
Inductive Call :=
  | UpdateState (state : grpc_connectivity_state) (status : Status)
                (picker : SubchannelPicker)
  | RequestReresolution
  | RequestConnection (sc : SubchannelInterface)
  | ResetBackoff (sc : SubchannelInterface).

Record World := mkWorld {
  policy : RoundRobin;
  heap : gmap ptr RoundRobinSubchannelList;
  next_ptr : ptr;
  trace : list Call
}.

(** State and abort monad over [World]. *)
Definition M (A : Type) : Type := World → option (A * World).

Definition ret {A} (a : A) : M A := λ w, Some (a, w).
Definition bind {A B} (c : M A) (k : A → M B) : M B :=
  λ w, match c w with Some (a, w') => k a w' | None => None end.
Definition abort {A} : M A := λ _, None.
Definition lift {A} (o : option A) : M A :=
  λ w, match o with Some a => Some (a, w) | None => None end.

Declare Scope rr_scope.
Delimit Scope rr_scope with rr.
Notation "x <- c ;; k" := (bind c (λ x, k))
  (at level 100, c at next level, right associativity) : rr_scope.
Notation "c ;;; k" := (bind c (λ _, k))
  (at level 100, right associativity) : rr_scope.

Definition get_policy : M RoundRobin := λ w, Some (policy w, w).
Definition set_policy (p : RoundRobin) : M unit :=
  λ w, Some ((), mkWorld p (heap w) (next_ptr w) (trace w)).
(** Dereferencing a list pointer. *)
Definition load (a : ptr) : M RoundRobinSubchannelList :=
  λ w, match heap w !! a with Some l => Some (l, w) | None => None end.
Definition store (a : ptr) (l : RoundRobinSubchannelList) : M unit :=
  λ w, Some ((), mkWorld (policy w) (<[a := l]> (heap w)) (next_ptr w)
                         (trace w)).
(** Destroying the list that an [OrphanablePtr] held. *)
Definition discard (o : option ptr) : M unit :=
  λ w, Some ((), mkWorld (policy w)
                   (match o with Some a => delete a (heap w) | None => heap w end)
                   (next_ptr w) (trace w)).
Definition call (cs : list Call) : M unit :=
  λ w, Some ((), mkWorld (policy w) (heap w) (next_ptr w) (trace w ++ cs)).

Local Open Scope rr_scope.

(** ** Promotion and aggregation *)

(** The first half of [MaybeUpdateRoundRobinConnectivityStateLocked], run on
    the list [l] at address [this]: swap the list into [subchannel_list_]
    if it is [latest_pending_subchannel_list_] and one of the four cases
    holds. The active list is dereferenced only when the pending pointer is
    [this] and the active pointer is not null. *)
Definition MaybeUpdate_swap (this : ptr) (l : RoundRobinSubchannelList)
  : M unit :=
  p <- get_policy ;;
  swap <- (if decide (latest_pending_subchannel_list_ p = Some this) then
             match subchannel_list_ p with
             | None => ret true
             | Some a =>
                 la <- load a ;;
                 ret (bool_decide (num_ready_ la = 0%Z)
                      || bool_decide (0 < num_ready_ l)%Z
                      || bool_decide (num_transient_failure_ l
                                      = num_subchannels l))
             end
           else ret false) ;;
  if swap : bool then
    (* p->subchannel_list_ = std::move(p->latest_pending_subchannel_list_) *)
    discard (subchannel_list_ p) ;;;
    set_policy (mkRoundRobin (latest_pending_subchannel_list_ p) None
                             (shutdown_ p))
  else ret ().

(** The second half: report the aggregated state if [this] is the current
    list; the first matching rule wins. *)
Definition MaybeUpdate_report (this : ptr) (l : RoundRobinSubchannelList)
    (status_for_tf : Status) (rnd : Z) : M unit :=
  p <- get_policy ;;
  if decide (subchannel_list_ p ≠ Some this) then ret ()
  else if decide (0 < num_ready_ l)%Z then
    pk <- lift (Picker_ctor l rnd) ;;
    call [UpdateState GRPC_CHANNEL_READY OkStatus (RoundRobinPicker pk)]
  else if decide (0 < num_connecting_ l)%Z then
    call [UpdateState GRPC_CHANNEL_CONNECTING OkStatus QueuePicker]
  else if decide (num_transient_failure_ l = num_subchannels l) then
    call [UpdateState GRPC_CHANNEL_TRANSIENT_FAILURE status_for_tf
                      (TransientFailurePicker status_for_tf)]
  else ret ().

(** [RoundRobinSubchannelList::MaybeUpdateRoundRobinConnectivityStateLocked],
    called on the list at address [this]. *)
Definition MaybeUpdateRoundRobinConnectivityStateLocked
    (this : ptr) (status_for_tf : Status) (rnd : Z) : M unit :=
  l <- load this ;;
  MaybeUpdate_swap this l ;;;
  MaybeUpdate_report this l status_for_tf rnd.

(** ** Notifications *)

(** [RoundRobinSubchannelData::ProcessConnectivityChangeLocked], for the
    entry at index [i] of the list at address [this]. *)
Definition ProcessConnectivityChangeLocked
    (this : ptr) (i : nat) (connectivity_state : grpc_connectivity_state)
    (rnd : Z) : M unit :=
  l <- load this ;;
  sd <- lift (subchannel l i) ;;
  (* GPR_ASSERT(subchannel() != nullptr) *)
  sc <- lift (subchannel_ sd) ;;
  (if decide (connectivity_state = GRPC_CHANNEL_TRANSIENT_FAILURE
              ∨ connectivity_state = GRPC_CHANNEL_IDLE)
   then call [RequestReresolution; RequestConnection sc]
   else ret ()) ;;;
  r <- lift (UpdateLogicalConnectivityStateLocked i connectivity_state l) ;;
  store this r.2 ;;;
  if r.1 : bool then
    MaybeUpdateRoundRobinConnectivityStateLocked this
      (UnavailableError "connections to all backends failing") rnd
  else ret ().

(** ** Starting to watch a list *)

(** Modelled from the spec: [CheckConnectivityStateLocked] of the base class
    [SubchannelData] is not in round_robin.cc; it polls the current raw
    state of the entry's subchannel, here given by [poll]. *)
Definition CheckConnectivityStateLocked
    (poll : SubchannelInterface → grpc_connectivity_state)
    (sd : RoundRobinSubchannelData) : option grpc_connectivity_state :=
  sc ← subchannel_ sd; Some (poll sc).

(** Modelled from the spec: [StartConnectivityWatchLocked] of the base class
    [SubchannelData] is not in round_robin.cc; it registers the asynchronous
    watch of the entry. *)
Definition StartConnectivityWatchLocked (sd : RoundRobinSubchannelData) :=
  mkSubchannelData (subchannel_ sd) true (logical_connectivity_state_ sd).

(** The first loop of [StartWatchingLocked], from index [i], [count]
    entries to go. *)
Fixpoint StartWatchingLocked_poll
    (poll : SubchannelInterface → grpc_connectivity_state)
    (i count : nat) (l : RoundRobinSubchannelList)
  : option RoundRobinSubchannelList :=
  match count with
  | O => Some l
  | S count' =>
      sd ← subchannel l i;
      state ← CheckConnectivityStateLocked poll sd;
      l' ← (if decide (state ≠ GRPC_CHANNEL_IDLE) then
              r ← UpdateLogicalConnectivityStateLocked i state l; Some (r.2)
            else Some l);
      StartWatchingLocked_poll poll (S i) count' l'
  end.

(** The second loop of [StartWatchingLocked]: the calls it makes and the
    list afterwards. *)
Fixpoint StartWatchingLocked_watch
    (i count : nat) (l : RoundRobinSubchannelList)
  : option (list Call * RoundRobinSubchannelList) :=
  match count with
  | O => Some ([], l)
  | S count' =>
      sd ← subchannel l i;
      match subchannel_ sd with
      | Some sc =>
          let l' := set_subchannel_data
                      (<[i := StartConnectivityWatchLocked sd]>
                         (subchannel_data_ l)) l in
          r ← StartWatchingLocked_watch (S i) count' l';
          Some (RequestConnection sc :: r.1, r.2)
      | None => StartWatchingLocked_watch (S i) count' l
      end
  end.

(** [RoundRobinSubchannelList::StartWatchingLocked] *)
Definition StartWatchingLocked
    (poll : SubchannelInterface → grpc_connectivity_state)
    (this : ptr) (status_for_tf : Status) (rnd : Z) : M unit :=
  l <- load this ;;
  l1 <- lift (StartWatchingLocked_poll poll 0
                (length (subchannel_data_ l)) l) ;;
  r <- lift (StartWatchingLocked_watch 0 (length (subchannel_data_ l1)) l1) ;;
  store this r.2 ;;;
  call r.1 ;;;
  MaybeUpdateRoundRobinConnectivityStateLocked this status_for_tf rnd.

(** ** The policy's control surface *)

Inductive StatusOr (A : Type) :=
  | StatusOr_ok (value : A)
  | StatusOr_error (status : Status).
Arguments StatusOr_ok {A} value.
Arguments StatusOr_error {A} status.

Record UpdateArgs := mkUpdateArgs {
  addresses : StatusOr (list ServerAddress);
  resolution_note : string
}.

(** Modelled from the spec: the constructor of the base class
    [SubchannelList] is not in round_robin.cc; it builds one entry per
    address, in order, each holding the subchannel of its address. The
    initial logical state (IDLE) and the zero counters are the member
    initialisers of round_robin.cc. *)
Definition RoundRobinSubchannelList_ctor (addrs : list ServerAddress)
  : RoundRobinSubchannelList :=
  mkSubchannelList
    (map (λ a, mkSubchannelData (Some a) false GRPC_CHANNEL_IDLE) addrs)
    0 0 0.

(** [MakeOrphanable<RoundRobinSubchannelList>(...)]: a new list in the
    store. *)
Definition MakeOrphanable (l : RoundRobinSubchannelList) : M ptr :=
  λ w, Some (next_ptr w,
             mkWorld (policy w) (<[next_ptr w := l]> (heap w))
                     (S (next_ptr w)) (trace w)).

(** The status that [UpdateLocked] passes to [StartWatchingLocked]. *)
Definition UpdateLocked_status_for_tf (args : UpdateArgs) : Status :=
  match addresses args with
  | StatusOr_ok _ =>
      UnavailableError ("empty address list: " +:+ resolution_note args)
  | StatusOr_error st => st
  end.

(** [RoundRobin::UpdateLocked] *)
Definition UpdateLocked
    (poll : SubchannelInterface → grpc_connectivity_state)
    (args : UpdateArgs) (rnd : Z) : M unit :=
  p <- get_policy ;;
  let create (addrs : list ServerAddress) : M unit :=
    new <- MakeOrphanable (RoundRobinSubchannelList_ctor addrs) ;;
    discard (latest_pending_subchannel_list_ p) ;;;
    set_policy (mkRoundRobin (subchannel_list_ p) (Some new) (shutdown_ p)) ;;;
    StartWatchingLocked poll new (UpdateLocked_status_for_tf args) rnd in
  match addresses args with
  | StatusOr_ok addrs => create addrs
  | StatusOr_error _ =>
      if decide (subchannel_list_ p ≠ None) then ret () else create []
  end.

(** [RoundRobin::ShutdownLocked] *)
Definition ShutdownLocked : M unit :=
  p <- get_policy ;;
  set_policy (mkRoundRobin (subchannel_list_ p)
                (latest_pending_subchannel_list_ p) true) ;;;
  discard (subchannel_list_ p) ;;;
  set_policy (mkRoundRobin None (latest_pending_subchannel_list_ p) true) ;;;
  discard (latest_pending_subchannel_list_ p) ;;;
  set_policy (mkRoundRobin None None true).

(** Modelled from the spec: [ResetBackoffLocked] of the base class
    [SubchannelList] is not in round_robin.cc; it forwards the reset to the
    subchannel of every entry and changes nothing else. *)
Definition SubchannelList_ResetBackoffLocked (l : RoundRobinSubchannelList)
  : list Call :=
  omap (λ sd, ResetBackoff <$> subchannel_ sd) (subchannel_data_ l).

(** [RoundRobin::ResetBackoffLocked] *)
Definition ResetBackoffLocked : M unit :=
  p <- get_policy ;;
  (* subchannel_list_->ResetBackoffLocked() *)
  a <- lift (subchannel_list_ p) ;;
  la <- load a ;;
  call (SubchannelList_ResetBackoffLocked la) ;;;
  match latest_pending_subchannel_list_ p with
  | Some q =>
      lq <- load q ;;
      call (SubchannelList_ResetBackoffLocked lq)
  | None => ret ()
  end.

(** The policy as constructed: no list, not shut down. *)
Definition initial_world : World :=
  mkWorld (mkRoundRobin None None false) ∅ 0 [].

(** ** Runs of the policy *)

(** What the owning channel and the subchannel watchers do to the policy:
    the three control calls, and the delivery of a raw state to the entry
    at index [i] of the list at address [this]. *)
Inductive Op :=
  | Op_Update (poll : SubchannelInterface → grpc_connectivity_state)
              (args : UpdateArgs) (rnd : Z)
  | Op_Notify (this : ptr) (i : nat) (raw : grpc_connectivity_state) (rnd : Z)
  | Op_ResetBackoff
  | Op_Shutdown.

Definition run_op (o : Op) : M unit :=
  match o with
  | Op_Update poll args rnd => UpdateLocked poll args rnd
  | Op_Notify this i raw rnd => ProcessConnectivityChangeLocked this i raw rnd
  | Op_ResetBackoff => ResetBackoffLocked
  | Op_Shutdown => ShutdownLocked
  end.

(** An address list is a vector: its size is a [size_t]. *)
Definition valid_args (args : UpdateArgs) : Prop :=
  match addresses args with
  | StatusOr_ok addrs => (Z.of_nat (length addrs) < size_t_modulus)%Z
  | StatusOr_error _ => True
  end.

Definition valid_op (o : Op) : Prop :=
  match o with
  | Op_Update _ args _ => valid_args args
  | _ => True
  end.

(** The states of the policy: those that a run of operations reaches from
    the policy as constructed, every operation returning. *)
Inductive reachable : World → Prop :=
  | reachable_initial : reachable initial_world
  | reachable_step (w w' : World) (o : Op) :
      reachable w → valid_op o → run_op o w = Some ((), w') → reachable w'.

(** ** Invariants *)

(** Number of entries whose logical state is [s]. *)
Definition count_state (s : grpc_connectivity_state)
    (sds : list RoundRobinSubchannelData) : Z :=
  Z.of_nat (length (filter (λ sd, logical_connectivity_state_ sd = s) sds)).

(** [1] when the two states are the same, [0] otherwise. *)
Definition delta (s x : grpc_connectivity_state) : Z :=
  if decide (s = x) then 1%Z else 0%Z.

(** A list whose counters count the logical states of its entries. *)
Record list_ok (l : RoundRobinSubchannelList) : Prop := mk_list_ok {
  ok_size : (num_subchannels l < size_t_modulus)%Z;
  ok_ready :
    num_ready_ l = count_state GRPC_CHANNEL_READY (subchannel_data_ l);
  ok_connecting :
    num_connecting_ l
    = count_state GRPC_CHANNEL_CONNECTING (subchannel_data_ l);
  ok_transient_failure :
    num_transient_failure_ l
    = count_state GRPC_CHANNEL_TRANSIENT_FAILURE (subchannel_data_ l);
  ok_no_shutdown :
    Forall (λ sd, logical_connectivity_state_ sd ≠ GRPC_CHANNEL_SHUTDOWN)
           (subchannel_data_ l);
  ok_subchannel :
    Forall (λ sd, is_Some (subchannel_ sd)) (subchannel_data_ l)
}.

(** A policy whose list pointers are live and distinct and whose lists are
    consistent. *)
Record world_ok (w : World) : Prop := mk_world_ok {
  wok_lists : ∀ a l, heap w !! a = Some l → list_ok l;
  wok_active :
    ∀ a, subchannel_list_ (policy w) = Some a → is_Some (heap w !! a);
  wok_pending :
    ∀ a, latest_pending_subchannel_list_ (policy w) = Some a →
         is_Some (heap w !! a);
  wok_distinct :
    ∀ a, subchannel_list_ (policy w) = Some a →
         latest_pending_subchannel_list_ (policy w) ≠ Some a;
  wok_next : ∀ a, is_Some (heap w !! a) → a < next_ptr w
}.

(** The class invariant of a picker: the cursor is an index of the
    snapshot, whose size is a [size_t]. *)
Definition Picker_wf (pk : Picker) : Prop :=
  (0 ≤ last_picked_index_ pk < Picker_size pk)%Z ∧
  (Picker_size pk < size_t_modulus)%Z.

Definition is_UpdateState (c : Call) : Prop :=
  match c with UpdateState _ _ _ => True | _ => False end.

(** The promotion step of the procedure: the list at [this] has become the
    active list, the pending slot is empty and the previous active list is
    destroyed. *)
Definition promoted (this : ptr) (w w' : World) : Prop :=
  policy w' = mkRoundRobin (Some this) None (shutdown_ (policy w)) ∧
  heap w' = match subchannel_list_ (policy w) with
            | Some a => delete a (heap w)
            | None => heap w
            end.

(** The promotion step left the policy and the lists as they were. *)
Definition not_promoted (w w' : World) : Prop :=
  policy w' = policy w ∧ heap w' = heap w.

(** The condition under which the first half of the procedure swaps, as
    the code tests it on the counters. *)
Definition swap_cond (this : ptr) (l : RoundRobinSubchannelList) (w : World)
  : Prop :=
  latest_pending_subchannel_list_ (policy w) = Some this ∧
  (subchannel_list_ (policy w) = None
   ∨ (∃ a la, subchannel_list_ (policy w) = Some a ∧ heap w !! a = Some la
              ∧ num_ready_ la = 0%Z)
   ∨ (0 < num_ready_ l)%Z
   ∨ num_transient_failure_ l = num_subchannels l).

(** The calls of the second loop of [StartWatchingLocked]. *)
Definition watch_calls (sds : list RoundRobinSubchannelData) : list Call :=
  omap (λ sd, RequestConnection <$> subchannel_ sd) sds.

(** The policy state in which [UpdateLocked] starts watching the list that
    it has just created at address [next_ptr w] over [addrs]. *)
Definition created (addrs : list ServerAddress) (w : World) : World :=
  mkWorld (mkRoundRobin (subchannel_list_ (policy w)) (Some (next_ptr w))
                        (shutdown_ (policy w)))
          (match latest_pending_subchannel_list_ (policy w) with
           | Some a => delete a (<[next_ptr w := RoundRobinSubchannelList_ctor addrs]>
                                   (heap w))
           | None => <[next_ptr w := RoundRobinSubchannelList_ctor addrs]> (heap w)
           end)
          (S (next_ptr w)) (trace w).

(** The store after the policy has dropped the list that [o] points to. *)
Definition drop_list (o : option ptr)
    (h : gmap ptr RoundRobinSubchannelList) :=
  match o with Some a => delete a h | None => h end.

(** The address list that [UpdateLocked] builds the new list from. *)
Definition UpdateLocked_addresses (args : UpdateArgs) : list ServerAddress :=
  match addresses args with
  | StatusOr_ok addrs => addrs
  | StatusOr_error _ => []
  end.


(** A run of operations from a given state; [None] when one of them does
    not return. *)
Fixpoint run_ops (ops : list Op) (w : World) : option World :=
  match ops with
  | [] => Some w
  | o :: ops' =>
      match run_op o w with
      | Some (_, w') => run_ops ops' w'
      | None => None
      end
  end.

(** ** Example inputs *)

(** Subchannel 0 is idle, 1 is connected, 2 has failed, the others are
    connecting. *)
Definition example_poll (sc : SubchannelInterface) : grpc_connectivity_state :=
  match sc with
  | 0 => GRPC_CHANNEL_IDLE
  | 1 => GRPC_CHANNEL_READY
  | 2 => GRPC_CHANNEL_TRANSIENT_FAILURE
  | _ => GRPC_CHANNEL_CONNECTING
  end.

Definition example_update_1 : Op :=
  Op_Update example_poll (mkUpdateArgs (StatusOr_ok [0; 1; 2; 3]) "") 7.
Definition example_update_2 : Op :=
  Op_Update example_poll (mkUpdateArgs (StatusOr_ok [4; 5]) "") 3.

(** After the first update: list 0 is active, with one READY entry. *)
Definition example_world_1 : World :=
  default initial_world (run_ops [example_update_1] initial_world).

(** After the second update: list 1 is pending, its two entries are
    CONNECTING. *)
Definition example_world_2 : World :=
  default initial_world
          (run_ops [example_update_1; example_update_2] initial_world).

Definition example_list_1 : RoundRobinSubchannelList :=
  mkSubchannelList
    [mkSubchannelData (Some 0) true GRPC_CHANNEL_IDLE;
     mkSubchannelData (Some 1) true GRPC_CHANNEL_READY;
     mkSubchannelData (Some 2) true GRPC_CHANNEL_TRANSIENT_FAILURE;
     mkSubchannelData (Some 3) true GRPC_CHANNEL_CONNECTING]
    1 1 1.

Definition example_list_2 : RoundRobinSubchannelList :=
  mkSubchannelList
    [mkSubchannelData (Some 4) true GRPC_CHANNEL_CONNECTING;
     mkSubchannelData (Some 5) true GRPC_CHANNEL_CONNECTING]
    0 2 0.

Definition example_picker : Picker := mkPicker 1 [10; 11; 12].

Definition example_status : Status := mkStatus (kOtherCode 14) "dns failure".

(** ** Destruction, and further predicates and examples *)

(** [RoundRobin::~RoundRobin]: both list pointers must be null. *)
Definition RoundRobin_dtor : M unit :=
  p <- get_policy ;;
  lift (GPR_ASSERT (bool_decide (subchannel_list_ p = None))) ;;;
  lift (GPR_ASSERT (bool_decide (latest_pending_subchannel_list_ p = None))).

(** Every list in the store is the active or the pending list, and there is
    a pending list only beside an active one. *)
Definition lists_owned (w : World) : Prop :=
  (∀ a, is_Some (heap w !! a) →
        subchannel_list_ (policy w) = Some a
        ∨ latest_pending_subchannel_list_ (policy w) = Some a) ∧
  (latest_pending_subchannel_list_ (policy w) ≠ None →
   subchannel_list_ (policy w) ≠ None).

(** Counters that leave room for one more increment. *)
Definition counters_in_range (l : RoundRobinSubchannelList) : Prop :=
  (0 ≤ num_ready_ l < size_t_modulus - 1)%Z ∧
  (0 ≤ num_connecting_ l < size_t_modulus - 1)%Z ∧
  (0 ≤ num_transient_failure_ l < size_t_modulus - 1)%Z.

(** The calls that a raw state makes [ProcessConnectivityChangeLocked]
    issue before it updates the logical state. *)
Definition reresolution_calls (sc : SubchannelInterface)
    (raw : grpc_connectivity_state) : list Call :=
  if decide (raw = GRPC_CHANNEL_TRANSIENT_FAILURE ∨ raw = GRPC_CHANNEL_IDLE)
  then [RequestReresolution; RequestConnection sc] else [].

(** A third example: a first update over a failed and a connecting
    subchannel. *)
Definition example_update_3 : Op :=
  Op_Update example_poll (mkUpdateArgs (StatusOr_ok [2; 3]) "") 0.

Definition example_world_3 : World :=
  default initial_world (run_ops [example_update_3] initial_world).

Definition example_list_3 : RoundRobinSubchannelList :=
  mkSubchannelList
    [mkSubchannelData (Some 2) true GRPC_CHANNEL_TRANSIENT_FAILURE;
     mkSubchannelData (Some 3) true GRPC_CHANNEL_CONNECTING]
    0 1 1.

(** * Proofs *)

Ltac unfold_M :=
  unfold bind, ret, lift, abort, get_policy, set_policy, load, store,
         discard, call in *.

(** ** Machine integers and the picker *)

Lemma to_size_t_small z : (0 ≤ z < size_t_modulus)%Z → to_size_t z = z.
Proof. intros. unfold to_size_t. by apply Z.mod_small. Qed.

Lemma Pick_nonempty (pk : Picker) :
  subchannels_ pk ≠ [] →
  let idx := (to_size_t (last_picked_index_ pk + 1) mod Picker_size pk)%Z in
  (0 ≤ idx < Picker_size pk)%Z ∧
  ∃ sc, subchannels_ pk !! Z.to_nat idx = Some sc ∧
        Pick pk = Some (Complete sc, mkPicker idx (subchannels_ pk)).
Proof.
  intros Hne idx.
  assert (Hpos : (0 < Picker_size pk)%Z).
  { unfold Picker_size. destruct (subchannels_ pk); [done | simpl; lia]. }
  assert (Hidx : (0 ≤ idx < Picker_size pk)%Z) by (apply Z.mod_pos_bound; lia).
  split; [done |].
  destruct (lookup_lt_is_Some_2 (subchannels_ pk) (Z.to_nat idx)) as [sc Hsc].
  { unfold Picker_size in Hidx. lia. }
  exists sc. split; [done |].
  unfold Pick. destruct (decide (Picker_size pk = 0%Z)) as [? | _]; [lia |].
  fold idx. by rewrite Hsc.
Qed.

Lemma Pick_wf_cursor (pk : Picker) :
  Picker_wf pk →
  (to_size_t (last_picked_index_ pk + 1) mod Picker_size pk
   = (last_picked_index_ pk + 1) mod Picker_size pk)%Z.
Proof.
  intros [Hc Hn].
  destruct (decide (last_picked_index_ pk + 1 = size_t_modulus)%Z) as [He | Hne].
  - assert (Picker_size pk = size_t_modulus) by lia. lia.
  - rewrite to_size_t_small; [done | lia].
Qed.

(** [Pick] keeps the class invariant, and the constructor establishes it
    (see [Picker_ctor_ok]). *)
Lemma Pick_wf (pk pk' : Picker) (r : PickResult) :
  Picker_wf pk → Pick pk = Some (r, pk') → Picker_wf pk'.
Proof.
  intros [Hc Hn] HP. unfold Pick in HP.
  destruct (decide (Picker_size pk = 0%Z)); [done |].
  simpl in HP. destruct (subchannels_ pk !! _); simpl in HP; [| done].
  simplify_eq. split; [| exact Hn]. unfold Picker_size in *. simpl.
  apply Z.mod_pos_bound. lia.
Qed.

Lemma Pick_n_lookup (k : nat) : ∀ pk : Picker,
  Picker_wf pk →
  ∃ scs,
    Pick_n k pk =
      Some (scs, mkPicker ((last_picked_index_ pk + Z.of_nat k) mod Picker_size pk)%Z
                          (subchannels_ pk)) ∧
    length scs = k ∧
    ∀ j, j < k →
      scs !! j = subchannels_ pk !!
                   Z.to_nat ((last_picked_index_ pk + 1 + Z.of_nat j) mod Picker_size pk)%Z.
Proof.
  induction k as [| k IH]; intros pk Hwf.
  - exists []. simpl. split; [| split; [done | intros; lia]].
    destruct pk as [c subs]. destruct Hwf as [Hc _]. simpl in *.
    rewrite Z.add_0_r, Z.mod_small by done. done.
  - assert (Hne : subchannels_ pk ≠ []).
    { destruct Hwf as [Hc _]. unfold Picker_size in Hc.
      destruct (subchannels_ pk); [simpl in Hc; lia | done]. }
    destruct (Pick_nonempty pk Hne) as (Hidx & sc & Hsc & HP).
    rewrite Pick_wf_cursor in Hidx, Hsc, HP by done.
    set (pk' := mkPicker ((last_picked_index_ pk + 1) mod Picker_size pk)%Z
                         (subchannels_ pk)) in *.
    assert (Hwf' : Picker_wf pk').
    { destruct Hwf as [_ Hn]. split; [exact Hidx | exact Hn]. }
    destruct (IH pk' Hwf') as (scs & Hn & Hlen & Hlook).
    exists (sc :: scs). simpl. rewrite HP, Hn. simpl.
    change (Picker_size pk') with (Picker_size pk) in *.
    split; [| split; [by rewrite Hlen |]].
    + do 3 f_equal. rewrite Zplus_mod_idemp_l. f_equal. lia.
    + intros [| j] Hj; simpl.
      * rewrite Z.add_0_r. done.
      * rewrite Hlook by lia. simpl. do 2 f_equal.
        rewrite <- Z.add_assoc, Zplus_mod_idemp_l. f_equal. lia.
Qed.

Lemma Pick_n_add (a b : nat) : ∀ (pk pk1 pk2 : Picker) s1 s2,
  Pick_n a pk = Some (s1, pk1) →
  Pick_n b pk1 = Some (s2, pk2) →
  Pick_n (a + b) pk = Some (s1 ++ s2, pk2).
Proof.
  induction a as [| a IH]; intros pk pk1 pk2 s1 s2 Ha Hb; simpl in *.
  - by simplify_eq.
  - destruct (Pick pk) as [[[sc | | st] pk'] |]; try done.
    destruct (Pick_n a pk') as [[scs pk''] |] eqn:Hn; simpl in Ha; [| done].
    simplify_eq. by rewrite (IH _ _ _ _ _ Hn Hb).
Qed.

Lemma rotate_Permutation {A} (k : nat) (l : list A) : rotate k l ≡ₚ l.
Proof.
  unfold rotate. rewrite Permutation_app_comm. by rewrite take_drop.
Qed.

(** ** Counting entries, counters, promotion and the invariant *)

Section counting.
Implicit Types (sds : list RoundRobinSubchannelData)
                 (sd : RoundRobinSubchannelData)
                 (s : grpc_connectivity_state).

Lemma count_state_nil s : count_state s [] = 0%Z.
Proof. done. Qed.

Lemma count_state_cons s sd sds :
    count_state s (sd :: sds)
    = (delta (logical_connectivity_state_ sd) s + count_state s sds)%Z.
Proof.
    unfold count_state, delta. rewrite filter_cons.
    destruct (decide (logical_connectivity_state_ sd = s)); simpl; lia.
Qed.

Lemma count_state_app s sds1 sds2 :
    count_state s (sds1 ++ sds2)
    = (count_state s sds1 + count_state s sds2)%Z.
Proof. unfold count_state. rewrite filter_app, length_app. lia. Qed.

Lemma delta_bounds s x : (0 ≤ delta s x ≤ 1)%Z.
Proof. unfold delta. destruct (decide (s = x)); lia. Qed.

Lemma count_state_bounds s sds :
    (0 ≤ count_state s sds ≤ Z.of_nat (length sds))%Z.
Proof.
    unfold count_state. pose proof (length_filter (λ sd, logical_connectivity_state_ sd = s) sds). lia.
Qed.

Lemma count_state_insert s sds i sd sd' :
    sds !! i = Some sd →
    count_state s (<[i := sd']> sds)
    = (count_state s sds - delta (logical_connectivity_state_ sd) s
       + delta (logical_connectivity_state_ sd') s)%Z.
Proof.
    intros Hi.
    rewrite insert_take_drop by (by eapply lookup_lt_Some).
    rewrite <- (take_drop_middle sds i sd Hi) at 3.
    rewrite !count_state_app, !count_state_cons. lia.
Qed.

Lemma count_state_total sds :
    (count_state GRPC_CHANNEL_IDLE sds
     + count_state GRPC_CHANNEL_CONNECTING sds
     + count_state GRPC_CHANNEL_READY sds
     + count_state GRPC_CHANNEL_TRANSIENT_FAILURE sds
     + count_state GRPC_CHANNEL_SHUTDOWN sds = Z.of_nat (length sds))%Z.
Proof.
    induction sds as [| sd sds IH]; [done |].
    rewrite !count_state_cons. simpl length.
    unfold delta. destruct (logical_connectivity_state_ sd); simpl; lia.
Qed.

Lemma count_state_lookup s sds i sd :
    sds !! i = Some sd → logical_connectivity_state_ sd = s →
    (0 < count_state s sds)%Z.
Proof.
    intros Hi Hs. rewrite <- (take_drop_middle sds i sd Hi).
    rewrite count_state_app, count_state_cons.
    pose proof (count_state_bounds s (take i sds)).
    pose proof (count_state_bounds s (drop (S i) sds)).
    unfold delta. rewrite decide_True by done. lia.
Qed.

Lemma count_state_all s sds :
    count_state s sds = Z.of_nat (length sds)
    ↔ Forall (λ sd, logical_connectivity_state_ sd = s) sds.
Proof.
    induction sds as [| sd sds IH].
    - split; [constructor | done].
    - rewrite count_state_cons, Forall_cons. simpl length.
      pose proof (count_state_bounds s sds). unfold delta.
      destruct (decide (logical_connectivity_state_ sd = s)).
      + rewrite <- IH. split; [intros; split; [done | lia] | intros [_ ?]; lia].
      + split; [lia | tauto].
Qed.

Lemma count_state_none s sds :
    Forall (λ sd, logical_connectivity_state_ sd ≠ s) sds →
    count_state s sds = 0%Z.
Proof.
    induction 1 as [| sd sds Hsd _ IH]; [done |].
    rewrite count_state_cons, IH. unfold delta. by rewrite decide_False.
Qed.
End counting.

Lemma list_ok_facts l :
  list_ok l →
  (0 ≤ num_ready_ l ∧ 0 ≤ num_connecting_ l ∧ 0 ≤ num_transient_failure_ l ∧
   num_ready_ l + num_connecting_ l + num_transient_failure_ l
   = num_subchannels l - count_state GRPC_CHANNEL_IDLE (subchannel_data_ l) ∧
   0 ≤ count_state GRPC_CHANNEL_IDLE (subchannel_data_ l) ∧
   num_subchannels l < size_t_modulus)%Z.
Proof.
  intros [Hsz Hr Hc Ht Hns _].
  pose proof (count_state_total (subchannel_data_ l)) as Htot.
  rewrite (count_state_none _ _ Hns) in Htot.
  pose proof (count_state_bounds GRPC_CHANNEL_IDLE (subchannel_data_ l)).
  pose proof (count_state_bounds GRPC_CHANNEL_READY (subchannel_data_ l)).
  pose proof (count_state_bounds GRPC_CHANNEL_CONNECTING (subchannel_data_ l)).
  pose proof (count_state_bounds GRPC_CHANNEL_TRANSIENT_FAILURE (subchannel_data_ l)).
  unfold num_subchannels in *. lia.
Qed.

Lemma UpdateStateCountersLocked_ok l i sd new_state :
  list_ok l → subchannel l i = Some sd →
  new_state ≠ GRPC_CHANNEL_SHUTDOWN →
  new_state ≠ logical_connectivity_state_ sd →
  ∃ l', UpdateStateCountersLocked (logical_connectivity_state_ sd) new_state l
        = Some l' ∧
    subchannel_data_ l' = subchannel_data_ l ∧
    num_ready_ l'
    = (num_ready_ l - delta (logical_connectivity_state_ sd) GRPC_CHANNEL_READY
       + delta new_state GRPC_CHANNEL_READY)%Z ∧
    num_connecting_ l'
    = (num_connecting_ l
       - delta (logical_connectivity_state_ sd) GRPC_CHANNEL_CONNECTING
       + delta new_state GRPC_CHANNEL_CONNECTING)%Z ∧
    num_transient_failure_ l'
    = (num_transient_failure_ l
       - delta (logical_connectivity_state_ sd) GRPC_CHANNEL_TRANSIENT_FAILURE
       + delta new_state GRPC_CHANNEL_TRANSIENT_FAILURE)%Z.
Proof.
  intros Hok Hi Hnew Hne.
  pose proof (list_ok_facts l Hok) as Hf.
  pose proof (count_state_lookup _ _ _ _ Hi eq_refl) as Hpos.
  pose proof (count_state_total (subchannel_data_ l)) as Htot.
  pose proof (count_state_bounds GRPC_CHANNEL_IDLE (subchannel_data_ l)).
  pose proof (count_state_bounds GRPC_CHANNEL_SHUTDOWN (subchannel_data_ l)).
  assert (Hcur : logical_connectivity_state_ sd ≠ GRPC_CHANNEL_SHUTDOWN).
  { eapply (Forall_lookup_1 _ _ _ _ (ok_no_shutdown l Hok)), Hi. }
  destruct Hok as [Hsz Hr Hc Ht _ _]. unfold num_subchannels in *.
  rewrite <- Hr, <- Hc, <- Ht in *.
  unfold UpdateStateCountersLocked, counters_leave, counters_enter.
  destruct (logical_connectivity_state_ sd), new_state; try done; simpl;
    rewrite ?bool_decide_eq_true_2 by lia; simpl;
    (eexists; split; [reflexivity |]); simpl;
    unfold size_t_incr, size_t_decr, delta; simpl;
    rewrite ?to_size_t_small by lia; repeat split; lia.
Qed.

Lemma UpdateStateCountersLocked_shutdown old_state l :
  UpdateStateCountersLocked old_state GRPC_CHANNEL_SHUTDOWN l = None.
Proof.
  unfold UpdateStateCountersLocked.
  by destruct (bool_decide (old_state ≠ GRPC_CHANNEL_SHUTDOWN)).
Qed.

Lemma list_ok_moved l l' i sd new_state :
  list_ok l → subchannel l i = Some sd →
  new_state ≠ GRPC_CHANNEL_SHUTDOWN →
  subchannel_data_ l' = subchannel_data_ l →
  num_ready_ l'
  = (num_ready_ l - delta (logical_connectivity_state_ sd) GRPC_CHANNEL_READY
     + delta new_state GRPC_CHANNEL_READY)%Z →
  num_connecting_ l'
  = (num_connecting_ l
     - delta (logical_connectivity_state_ sd) GRPC_CHANNEL_CONNECTING
     + delta new_state GRPC_CHANNEL_CONNECTING)%Z →
  num_transient_failure_ l'
  = (num_transient_failure_ l
     - delta (logical_connectivity_state_ sd) GRPC_CHANNEL_TRANSIENT_FAILURE
     + delta new_state GRPC_CHANNEL_TRANSIENT_FAILURE)%Z →
  list_ok (set_subchannel_data
             (<[i := set_logical_connectivity_state new_state sd]>
                (subchannel_data_ l')) l').
Proof.
  intros [Hsz Hr Hc Ht Hns Hsc] Hi Hnew Hd Hr' Hc' Ht'.
  unfold subchannel in Hi. rewrite Hd.
  split; simpl; unfold num_subchannels; simpl.
  - by rewrite length_insert.
  - rewrite (count_state_insert _ _ _ _ _ Hi). simpl. lia.
  - rewrite (count_state_insert _ _ _ _ _ Hi). simpl. lia.
  - rewrite (count_state_insert _ _ _ _ _ Hi). simpl. lia.
  - apply Forall_insert; done.
  - apply Forall_insert; [done |]. simpl.
    eapply (Forall_lookup_1 _ _ _ _ Hsc), Hi.
Qed.

(** The three outcomes of [UpdateLogicalConnectivityStateLocked]. *)
Lemma UpdateLogical_sticky l i sd raw :
  subchannel l i = Some sd →
  logical_connectivity_state_ sd = GRPC_CHANNEL_TRANSIENT_FAILURE →
  raw ≠ GRPC_CHANNEL_READY →
  UpdateLogicalConnectivityStateLocked i raw l = Some (false, l).
Proof.
  intros Hi Hcur Hraw. unfold UpdateLogicalConnectivityStateLocked.
  rewrite Hi. simpl. by rewrite decide_True.
Qed.

Lemma UpdateLogical_same l i sd raw :
  subchannel l i = Some sd →
  (if decide (raw = GRPC_CHANNEL_IDLE) then GRPC_CHANNEL_CONNECTING else raw)
  = logical_connectivity_state_ sd →
  UpdateLogicalConnectivityStateLocked i raw l = Some (false, l).
Proof.
  intros Hi Hsame. unfold UpdateLogicalConnectivityStateLocked.
  rewrite Hi. simpl. destruct (decide (_ ∧ _)); [done |].
  by rewrite decide_True.
Qed.

Lemma UpdateLogical_moves l i sd raw :
  subchannel l i = Some sd →
  ¬ (logical_connectivity_state_ sd = GRPC_CHANNEL_TRANSIENT_FAILURE
     ∧ raw ≠ GRPC_CHANNEL_READY) →
  let new_state :=
    if decide (raw = GRPC_CHANNEL_IDLE) then GRPC_CHANNEL_CONNECTING else raw in
  new_state ≠ logical_connectivity_state_ sd →
  UpdateLogicalConnectivityStateLocked i raw l
  = l' ← UpdateStateCountersLocked (logical_connectivity_state_ sd)
                                   new_state l;
    Some (true,
          set_subchannel_data
            (<[i := set_logical_connectivity_state new_state sd]>
               (subchannel_data_ l')) l').
Proof.
  intros Hi Hns new_state Hne. unfold UpdateLogicalConnectivityStateLocked.
  rewrite Hi. simpl. rewrite decide_False by done.
  fold new_state. by rewrite decide_False.
Qed.

Lemma UpdateLogical_ok l i sd raw :
  list_ok l → subchannel l i = Some sd → raw ≠ GRPC_CHANNEL_SHUTDOWN →
  ∃ b l', UpdateLogicalConnectivityStateLocked i raw l = Some (b, l') ∧
          list_ok l' ∧
          length (subchannel_data_ l') = length (subchannel_data_ l) ∧
          subchannel_ <$> subchannel_data_ l'
          = subchannel_ <$> subchannel_data_ l.
Proof.
  intros Hok Hi Hraw.
  destruct (decide (logical_connectivity_state_ sd = GRPC_CHANNEL_TRANSIENT_FAILURE
                    ∧ raw ≠ GRPC_CHANNEL_READY)) as [[Hs Hr] | Hns].
  { exists false, l. by rewrite (UpdateLogical_sticky _ _ _ _ Hi Hs Hr). }
  set (new_state := if decide (raw = GRPC_CHANNEL_IDLE)
                    then GRPC_CHANNEL_CONNECTING else raw).
  destruct (decide (new_state = logical_connectivity_state_ sd)) as [Hsame | Hne].
  { exists false, l. by rewrite (UpdateLogical_same _ _ _ _ Hi Hsame). }
  assert (Hnew : new_state ≠ GRPC_CHANNEL_SHUTDOWN).
  { unfold new_state. by destruct (decide (raw = GRPC_CHANNEL_IDLE)). }
  destruct (UpdateStateCountersLocked_ok l i sd new_state Hok Hi Hnew Hne)
    as (l' & HU & Hd & Hr & Hc & Ht).
  eexists true, _. rewrite (UpdateLogical_moves _ _ _ _ Hi Hns Hne).
  fold new_state. rewrite HU. simpl. split; [done |].
  split; [by eapply list_ok_moved |].
  split; [simpl; by rewrite length_insert, Hd |].
  simpl. rewrite list_fmap_insert, Hd. simpl.
  apply list_insert_id. unfold subchannel in Hi.
  by rewrite list_lookup_fmap, Hi.
Qed.

Lemma UpdateLogical_false l i raw l' :
  UpdateLogicalConnectivityStateLocked i raw l = Some (false, l') → l' = l.
Proof.
  unfold UpdateLogicalConnectivityStateLocked. intros HU.
  destruct (subchannel l i) as [sd |]; simpl in HU; [| done].
  destruct (decide (_ ∧ _)) in HU; [by simplify_eq |].
  destruct (decide (_ = _)) in HU; [by simplify_eq |].
  destruct (UpdateStateCountersLocked _ _ _); simpl in HU; by simplify_eq.
Qed.

Lemma UpdateLogical_preserves l i raw b l' :
  list_ok l →
  UpdateLogicalConnectivityStateLocked i raw l = Some (b, l') →
  list_ok l' ∧ length (subchannel_data_ l') = length (subchannel_data_ l) ∧
  subchannel_ <$> subchannel_data_ l' = subchannel_ <$> subchannel_data_ l.
Proof.
  intros Hok HU.
  destruct (subchannel l i) as [sd |] eqn:Hi;
    [| by unfold UpdateLogicalConnectivityStateLocked in HU; rewrite Hi in HU].
  destruct (decide (raw = GRPC_CHANNEL_SHUTDOWN)) as [-> | Hraw].
  - assert (Hcur : logical_connectivity_state_ sd ≠ GRPC_CHANNEL_SHUTDOWN).
    { eapply (Forall_lookup_1 _ _ _ _ (ok_no_shutdown l Hok)), Hi. }
    unfold UpdateLogicalConnectivityStateLocked in HU. rewrite Hi in HU.
    simpl in HU. destruct (decide (_ ∧ _)) as [? | ?] in HU. { simplify_eq. by split. }
    destruct (decide (logical_connectivity_state_ sd = GRPC_CHANNEL_SHUTDOWN)) in HU; [done |].
    unfold UpdateStateCountersLocked in HU.
    rewrite (bool_decide_eq_true_2 (logical_connectivity_state_ sd
                                    ≠ GRPC_CHANNEL_SHUTDOWN)) in HU by done.
    simpl in HU. done.
  - destruct (UpdateLogical_ok l i sd raw Hok Hi Hraw)
      as (b' & l'' & HU' & Hok' & Hlen & Hsub).
    rewrite HU in HU'. simplify_eq. by split.
Qed.

Lemma ready_subchannels_ok sds :
  Forall (λ sd, is_Some (subchannel_ sd)) sds →
  ∃ scs, ready_subchannels sds = Some scs ∧
         Z.of_nat (length scs) = count_state GRPC_CHANNEL_READY sds.
Proof.
  induction 1 as [| sd sds [sc Hsc] _ (scs & IH & Hlen)]; [by exists [] |].
  simpl. rewrite count_state_cons. unfold delta, connectivity_state.
  destruct (decide (logical_connectivity_state_ sd = GRPC_CHANNEL_READY)).
  - rewrite Hsc, IH. simpl. exists (sc :: scs). split; [done |]. simpl. lia.
  - exists scs. split; [done | lia].
Qed.

Lemma Picker_ctor_ok l rnd :
  list_ok l → (0 < num_ready_ l)%Z →
  ∃ pk, Picker_ctor l rnd = Some pk ∧ Picker_wf pk ∧
        ready_subchannels (subchannel_data_ l) = Some (subchannels_ pk).
Proof.
  intros Hok Hpos.
  destruct (ready_subchannels_ok _ (ok_subchannel l Hok)) as (scs & Hscs & Hlen).
  pose proof (count_state_bounds GRPC_CHANNEL_READY (subchannel_data_ l)).
  pose proof (ok_size l Hok) as Hsz. unfold num_subchannels in Hsz.
  rewrite (ok_ready l Hok) in Hpos.
  unfold Picker_ctor. rewrite Hscs. simpl.
  rewrite decide_False by lia.
  eexists. split; [done |]. split; [| done].
  unfold Picker_wf, Picker_size. simpl. split; [| lia].
  apply Z.mod_pos_bound. lia.
Qed.

Lemma MaybeUpdate_swap_spec this l w :
  (∀ a, subchannel_list_ (policy w) = Some a → is_Some (heap w !! a)) →
  ∃ w', MaybeUpdate_swap this l w = Some ((), w') ∧
        next_ptr w' = next_ptr w ∧ trace w' = trace w ∧
        (swap_cond this l w → promoted this w w') ∧
        (¬ swap_cond this l w → not_promoted w w').
Proof.
  intros Hact. destruct w as [[act pend sh] h n tr]. simpl in *.
  unfold MaybeUpdate_swap, swap_cond, promoted, not_promoted. unfold_M. simpl.
  destruct (decide (pend = Some this)) as [-> | Hp]; simpl.
  - destruct act as [a |]; simpl.
    + destruct (Hact a eq_refl) as [la Hla]. rewrite Hla. simpl.
      destruct (bool_decide (num_ready_ la = 0%Z)
                || bool_decide (0 < num_ready_ l)%Z
                || bool_decide (num_transient_failure_ l = num_subchannels l))
        eqn:Hb; simpl.
      * eexists. split; [done |]. simpl.
        split; [done |]. split; [done |]. split; [done |].
        intros Hn. exfalso. apply Hn. split; [done |]. right.
        apply orb_true_iff in Hb as [Hb | Hb];
          [apply orb_true_iff in Hb as [Hb | Hb] |];
          apply bool_decide_eq_true_1 in Hb; eauto 10.
      * eexists. split; [done |]. simpl.
        split; [done |]. split; [done |]. split; [| done].
        apply orb_false_iff in Hb as [Hb Hb3].
        apply orb_false_iff in Hb as [Hb1 Hb2].
        apply bool_decide_eq_false_1 in Hb1, Hb2, Hb3.
        intros (_ & [Hc | [(a' & la' & Ha' & Hla' & Hz) | [Hc | Hc]]]);
          exfalso; simplify_eq; done.
    + eexists. split; [done |]. simpl.
      split; [done |]. split; [done |]. split; [done |].
      intros Hn. exfalso. apply Hn. auto.
  - eexists. split; [done |]. simpl.
    split; [done |]. split; [done |]. split; [| done].
    intros [? _]. done.
Qed.

Lemma MaybeUpdate_report_spec this l st rnd w :
  list_ok l →
  ∃ w' report, MaybeUpdate_report this l st rnd w = Some ((), w') ∧
    policy w' = policy w ∧ heap w' = heap w ∧ next_ptr w' = next_ptr w ∧
    trace w' = trace w ++ report ∧
    (subchannel_list_ (policy w) ≠ Some this → report = []) ∧
    (subchannel_list_ (policy w) = Some this →
       ((0 < num_ready_ l)%Z →
          ∃ pk, Picker_ctor l rnd = Some pk ∧
                report = [UpdateState GRPC_CHANNEL_READY OkStatus
                                      (RoundRobinPicker pk)]) ∧
       (num_ready_ l = 0%Z → (0 < num_connecting_ l)%Z →
          report = [UpdateState GRPC_CHANNEL_CONNECTING OkStatus QueuePicker]) ∧
       (num_ready_ l = 0%Z → num_connecting_ l = 0%Z →
        num_transient_failure_ l = num_subchannels l →
          report = [UpdateState GRPC_CHANNEL_TRANSIENT_FAILURE st
                                (TransientFailurePicker st)]) ∧
       (num_ready_ l = 0%Z → num_connecting_ l = 0%Z →
        num_transient_failure_ l ≠ num_subchannels l → report = [])) ∧
    Forall is_UpdateState report.
Proof.
  intros Hok. pose proof (list_ok_facts l Hok) as Hf.
  destruct w as [p h n tr]. unfold MaybeUpdate_report. unfold_M. simpl.
  destruct (decide (subchannel_list_ p ≠ Some this)) as [Hne | He].
  { exists (mkWorld p h n tr), []. simpl. rewrite app_nil_r.
    repeat split; try done. }
  destruct (decide (0 < num_ready_ l)%Z) as [Hr | Hr].
  { destruct (Picker_ctor_ok l rnd Hok Hr) as (pk & Hpk & _).
    rewrite Hpk. simpl. eexists _, _. split; [done |]. simpl.
    repeat split; try done; try lia; eauto.
    by repeat constructor. }
  destruct (decide (0 < num_connecting_ l)%Z) as [Hc | Hc].
  { eexists _, _. split; [done |]. simpl.
    repeat split; try done; try lia. by repeat constructor. }
  destruct (decide (num_transient_failure_ l = num_subchannels l)) as [Ht | Ht].
  { eexists _, _. split; [done |]. simpl.
    repeat split; try done; try lia. by repeat constructor. }
  exists (mkWorld p h n tr), []. simpl. rewrite app_nil_r.
  repeat split; try done; lia.
Qed.

Lemma MaybeUpdate_spec this st rnd w l :
  heap w !! this = Some l → list_ok l →
  (∀ a, subchannel_list_ (policy w) = Some a → is_Some (heap w !! a)) →
  ∃ w' report,
    MaybeUpdateRoundRobinConnectivityStateLocked this st rnd w = Some ((), w') ∧
    next_ptr w' = next_ptr w ∧
    (swap_cond this l w → promoted this w w') ∧
    (¬ swap_cond this l w → not_promoted w w') ∧
    trace w' = trace w ++ report ∧
    (subchannel_list_ (policy w') ≠ Some this → report = []) ∧
    (subchannel_list_ (policy w') = Some this →
       ((0 < num_ready_ l)%Z →
          ∃ pk, Picker_ctor l rnd = Some pk ∧
                report = [UpdateState GRPC_CHANNEL_READY OkStatus
                                      (RoundRobinPicker pk)]) ∧
       (num_ready_ l = 0%Z → (0 < num_connecting_ l)%Z →
          report = [UpdateState GRPC_CHANNEL_CONNECTING OkStatus QueuePicker]) ∧
       (num_ready_ l = 0%Z → num_connecting_ l = 0%Z →
        num_transient_failure_ l = num_subchannels l →
          report = [UpdateState GRPC_CHANNEL_TRANSIENT_FAILURE st
                                (TransientFailurePicker st)]) ∧
       (num_ready_ l = 0%Z → num_connecting_ l = 0%Z →
        num_transient_failure_ l ≠ num_subchannels l → report = [])) ∧
    Forall is_UpdateState report.
Proof.
  intros Hl Hok Hact.
  destruct (MaybeUpdate_swap_spec this l w Hact)
    as (w1 & Hs & Hn1 & Ht1 & Hp & Hnp).
  destruct (MaybeUpdate_report_spec this l st rnd w1 Hok)
    as (w2 & report & Hr & Hp2 & Hh2 & Hn2 & Ht2 & Hre & Hrc & Hus).
  exists w2, report.
  split.
  { unfold MaybeUpdateRoundRobinConnectivityStateLocked, bind, load.
    by rewrite Hl, Hs. }
  split; [congruence |].
  split.
  { intros Hc. destruct (Hp Hc) as [? ?]. split; congruence. }
  split.
  { intros Hc. destruct (Hnp Hc) as [? ?]. split; congruence. }
  split; [congruence |].
  rewrite Hp2. done.
Qed.


Lemma swap_cond_dec this l w : swap_cond this l w ∨ ¬ swap_cond this l w.
Proof.
  unfold swap_cond.
  destruct (decide (latest_pending_subchannel_list_ (policy w) = Some this));
    [| by right; intros [? _]].
  destruct (subchannel_list_ (policy w)) as [a |] eqn:Ha; [| by left; auto].
  destruct (decide (0 < num_ready_ l)%Z); [by left; auto |].
  destruct (decide (num_transient_failure_ l = num_subchannels l));
    [by left; auto |].
  destruct (heap w !! a) as [la |] eqn:Hla.
  - destruct (decide (num_ready_ la = 0%Z)); [left; eauto 10 |].
    right. intros (_ & [? | [(a' & la' & ? & ? & ?) | [? | ?]]]);
      simplify_eq; done.
  - right. intros (_ & [? | [(a' & la' & ? & ? & ?) | [? | ?]]]);
      simplify_eq; done.
Qed.

Lemma world_ok_ext w w' :
  policy w' = policy w → heap w' = heap w → next_ptr w' = next_ptr w →
  world_ok w → world_ok w'.
Proof.
  intros Hp Hh Hn [H1 H2 H3 H4 H5].
  split; rewrite ?Hp, ?Hh, ?Hn; done.
Qed.

Lemma world_ok_promoted this w w' :
  world_ok w → latest_pending_subchannel_list_ (policy w) = Some this →
  promoted this w w' → next_ptr w' = next_ptr w → world_ok w'.
Proof.
  intros [H1 H2 H3 H4 H5] Hpend [Hp Hh] Hn.
  assert (Hsub : ∀ x y, heap w' !! x = Some y → heap w !! x = Some y).
  { intros x y. rewrite Hh. destruct (subchannel_list_ (policy w)); [| done].
    rewrite lookup_delete_Some. tauto. }
  split; rewrite ?Hp, ?Hn; simpl.
  - intros a l Ha. eauto.
  - intros a [= <-]. rewrite Hh.
    destruct (subchannel_list_ (policy w)) as [a |] eqn:Ha; [| by apply H3].
    rewrite lookup_delete_ne; [by apply H3 |].
    intros ->. by apply (H4 this).
  - done.
  - done.
  - intros a [y Hy]. apply H5. eauto.
Qed.

Lemma MaybeUpdate_world_ok this st rnd w w' :
  world_ok w →
  MaybeUpdateRoundRobinConnectivityStateLocked this st rnd w = Some ((), w') →
  world_ok w'.
Proof.
  intros Hok HM.
  destruct (heap w !! this) as [l |] eqn:Hl;
    [| by unfold MaybeUpdateRoundRobinConnectivityStateLocked, bind, load in HM;
          rewrite Hl in HM].
  destruct (MaybeUpdate_spec this st rnd w l Hl (wok_lists w Hok _ _ Hl)
              (wok_active w Hok))
    as (w'' & report & HM' & Hn & Hp & Hnp & _).
  rewrite HM in HM'. simplify_eq.
  destruct (swap_cond_dec this l w) as [Hc | Hc].
  - eapply world_ok_promoted; [done | apply Hc | by apply Hp | done].
  - destruct (Hnp Hc). by eapply world_ok_ext.
Qed.

Lemma world_ok_store this l l' w :
  world_ok w → heap w !! this = Some l → list_ok l' →
  world_ok (mkWorld (policy w) (<[this := l']> (heap w)) (next_ptr w) (trace w)).
Proof.
  intros [H1 H2 H3 H4 H5] Hl Hok'.
  assert (Hsome : ∀ a, is_Some (<[this := l']> (heap w) !! a)
                       ↔ is_Some (heap w !! a)).
  { intros a. rewrite lookup_insert_is_Some.
    destruct (decide (this = a)) as [<- | ?]; [| tauto].
    split; [eauto | auto]. }
  split; simpl.
  - intros a y. rewrite lookup_insert_Some. intros [[_ <-] | [_ ?]]; eauto.
  - intros a Ha. apply Hsome. eauto.
  - intros a Ha. apply Hsome. eauto.
  - done.
  - intros a Ha. apply H5, Hsome, Ha.
Qed.

Lemma world_ok_store_trace this l l' w tr :
  world_ok w → heap w !! this = Some l → list_ok l' →
  world_ok (mkWorld (policy w) (<[this := l']> (heap w)) (next_ptr w) tr).
Proof.
  intros Hok Hl Hok'.
  eapply world_ok_ext; [| | | by eapply (world_ok_store this l l' w)]; done.
Qed.

Lemma ProcessConnectivityChangeLocked_spec this i raw rnd w l sd :
  world_ok w → heap w !! this = Some l → subchannel l i = Some sd →
  raw ≠ GRPC_CHANNEL_SHUTDOWN →
  ∃ w' sc report,
    subchannel_ sd = Some sc ∧
    ProcessConnectivityChangeLocked this i raw rnd w = Some ((), w') ∧
    world_ok w' ∧
    trace w' = trace w
               ++ (if decide (raw = GRPC_CHANNEL_TRANSIENT_FAILURE
                              ∨ raw = GRPC_CHANNEL_IDLE)
                   then [RequestReresolution; RequestConnection sc] else [])
               ++ report ∧
    Forall is_UpdateState report ∧
    (∀ l', UpdateLogicalConnectivityStateLocked i raw l = Some (false, l') →
           report = [] ∧ policy w' = policy w ∧ heap w' = heap w).
Proof.
  intros Hok Hl Hi Hraw.
  pose proof (wok_lists w Hok _ _ Hl) as Hlok.
  destruct (Forall_lookup_1 _ _ _ _ (ok_subchannel l Hlok) Hi) as [sc Hsc].
  destruct (UpdateLogical_ok l i sd raw Hlok Hi Hraw)
    as (b & l' & HU & Hok' & _).
  set (calls := if decide (raw = GRPC_CHANNEL_TRANSIENT_FAILURE
                           ∨ raw = GRPC_CHANNEL_IDLE)
                then [RequestReresolution; RequestConnection sc] else []).
  set (w1 := mkWorld (policy w) (<[this := l']> (heap w)) (next_ptr w)
                     (trace w ++ calls)).
  assert (Hok1 : world_ok w1).
  { by eapply world_ok_store_trace. }
  assert (Hrun : ProcessConnectivityChangeLocked this i raw rnd w
                 = if b then MaybeUpdateRoundRobinConnectivityStateLocked this
                               (UnavailableError "connections to all backends failing")
                               rnd w1
                   else Some ((), w1)).
  { unfold ProcessConnectivityChangeLocked. unfold_M. rewrite Hl, Hi, Hsc, HU.
    simpl. subst w1 calls.
    destruct (decide (raw = GRPC_CHANNEL_TRANSIENT_FAILURE
                      ∨ raw = GRPC_CHANNEL_IDLE)); simpl;
      rewrite ?app_nil_r; by destruct b. }
  destruct b.
  - assert (Hl1 : heap w1 !! this = Some l') by apply lookup_insert_eq.
    destruct (MaybeUpdate_spec this
                (UnavailableError "connections to all backends failing")
                rnd w1 l' Hl1 Hok' (wok_active w1 Hok1))
      as (w' & report & HM & Hn & _ & _ & Ht & _ & _ & Hus).
    exists w', sc, report. split; [done |]. split; [by rewrite Hrun |].
    split; [by eapply MaybeUpdate_world_ok |].
    split; [rewrite Ht; subst w1; simpl; by rewrite <- app_assoc |].
    split; [done |]. intros l'' HU'. rewrite HU in HU'. done.
  - exists w1, sc, []. split; [done |]. split; [done |]. split; [done |].
    split; [by rewrite app_nil_r |]. split; [done |].
    intros l'' HU'. rewrite HU in HU'. simplify_eq.
    apply UpdateLogical_false in HU as ->.
    split; [done |]. split; [done |]. simpl. by apply insert_id.
Qed.

Lemma ProcessConnectivityChangeLocked_world_ok this i raw rnd w w' :
  world_ok w →
  ProcessConnectivityChangeLocked this i raw rnd w = Some ((), w') →
  world_ok w'.
Proof.
  intros Hok HP. unfold ProcessConnectivityChangeLocked in HP.
  unfold bind at 1, load in HP.
  destruct (heap w !! this) as [l |] eqn:Hl; [| done].
  unfold bind at 1, lift in HP.
  destruct (subchannel l i) as [sd |] eqn:Hi; [| done].
  unfold bind at 1, lift in HP.
  destruct (subchannel_ sd) as [sc |] eqn:Hsc; [| done].
  unfold bind at 1 in HP.
  match type of HP with
  | context [match ?c w with _ => _ end] =>
      assert (∃ tr, c w = Some ((), mkWorld (policy w) (heap w) (next_ptr w) tr))
        as [tr Hc]
  end.
  { case_decide; unfold call, ret; destruct w; eauto. }
  rewrite Hc in HP. clear Hc.
  unfold bind at 1, lift in HP. simpl in HP.
  destruct (UpdateLogicalConnectivityStateLocked i raw l) as [[b l'] |] eqn:HU;
    [| done].
  destruct (UpdateLogical_preserves l i raw b l' (wok_lists w Hok _ _ Hl) HU)
    as (Hok' & _).
  unfold bind at 1, store in HP. simpl in HP.
  assert (Hok1 : world_ok (mkWorld (policy w) (<[this := l']> (heap w))
                                   (next_ptr w) tr)).
  { by eapply world_ok_store_trace. }
  destruct b.
  - by eapply MaybeUpdate_world_ok.
  - unfold ret in HP. by simplify_eq.
Qed.

Lemma watch_calls_ext sds sds' :
  subchannel_ <$> sds = subchannel_ <$> sds' →
  watch_calls sds = watch_calls sds'.
Proof.
  revert sds'. induction sds as [| sd sds IH]; intros [| sd' sds'] H;
    simplify_eq; [done |].
  simpl in *. simplify_eq. unfold watch_calls in *. simpl.
  rewrite (IH sds') by done. by replace (subchannel_ sd') with (subchannel_ sd).
Qed.

Lemma StartWatchingLocked_poll_preserves poll count : ∀ i l l',
  list_ok l → StartWatchingLocked_poll poll i count l = Some l' →
  list_ok l' ∧ length (subchannel_data_ l') = length (subchannel_data_ l) ∧
  subchannel_ <$> subchannel_data_ l' = subchannel_ <$> subchannel_data_ l.
Proof.
  induction count as [| count IH]; intros i l l' Hok HP; simpl in HP.
  - by simplify_eq.
  - destruct (subchannel l i) as [sd |]; simpl in HP; [| done].
    destruct (CheckConnectivityStateLocked poll sd) as [state |];
      simpl in HP; [| done].
    destruct (decide (state ≠ GRPC_CHANNEL_IDLE)); simpl in HP.
    + destruct (UpdateLogicalConnectivityStateLocked i state l)
        as [[b l1] |] eqn:HU; simpl in HP; [| done].
      destruct (UpdateLogical_preserves _ _ _ _ _ Hok HU) as (Hok1 & Hl1 & Hs1).
      destruct (IH _ _ _ Hok1 HP) as (? & ? & ?).
      split; [done |]. split; congruence.
    + by apply (IH _ _ _ Hok HP).
Qed.

Lemma list_ok_watch l i sd :
  list_ok l → subchannel l i = Some sd →
  list_ok (set_subchannel_data
             (<[i := StartConnectivityWatchLocked sd]> (subchannel_data_ l)) l).
Proof.
  intros [Hsz Hr Hc Ht Hns Hsc] Hi. unfold subchannel in Hi.
  split; simpl; unfold num_subchannels; simpl.
  - by rewrite length_insert.
  - rewrite (count_state_insert _ _ _ _ _ Hi). simpl. lia.
  - rewrite (count_state_insert _ _ _ _ _ Hi). simpl. lia.
  - rewrite (count_state_insert _ _ _ _ _ Hi). simpl. lia.
  - apply Forall_insert; [done |]. simpl.
    eapply (Forall_lookup_1 _ _ _ _ Hns), Hi.
  - apply Forall_insert; [done |]. simpl.
    eapply (Forall_lookup_1 _ _ _ _ Hsc), Hi.
Qed.

Lemma StartWatchingLocked_watch_spec count : ∀ i l cs l',
  list_ok l → StartWatchingLocked_watch i count l = Some (cs, l') →
  list_ok l' ∧
  cs = watch_calls (take count (drop i (subchannel_data_ l))) ∧
  num_ready_ l' = num_ready_ l ∧ num_connecting_ l' = num_connecting_ l ∧
  num_transient_failure_ l' = num_transient_failure_ l ∧
  length (subchannel_data_ l') = length (subchannel_data_ l).
Proof.
  induction count as [| count IH]; intros i l cs l' Hok HW; simpl in HW.
  - simplify_eq. by rewrite take_0.
  - destruct (subchannel l i) as [sd |] eqn:Hi; simpl in HW; [| done].
    unfold subchannel in Hi. rewrite (drop_S _ _ _ Hi). simpl.
    unfold watch_calls. simpl. fold (watch_calls (take count (drop (S i) (subchannel_data_ l)))).
    destruct (subchannel_ sd) as [sc |] eqn:Hsc; simpl.
    + match type of HW with
      | context [StartWatchingLocked_watch _ _ ?l1] =>
          destruct (StartWatchingLocked_watch (S i) count l1)
            as [[cs1 l2] |] eqn:HW1; simpl in HW; [| done];
          destruct (IH (S i) l1 cs1 l2 (list_ok_watch l i sd Hok Hi) HW1)
            as (Hok2 & Hcs & Hr & Hc & Ht & Hlen)
      end.
      simplify_eq. simpl in *.
      rewrite drop_insert_lt in * by lia. rewrite length_insert in Hlen.
      done.
    + apply (IH _ _ _ _ Hok HW).
Qed.

Lemma StartWatchingLocked_spec poll this st rnd w w' l :
  world_ok w → heap w !! this = Some l →
  StartWatchingLocked poll this st rnd w = Some ((), w') →
  ∃ l2,
    list_ok l2 ∧
    length (subchannel_data_ l2) = length (subchannel_data_ l) ∧
    let w1 := mkWorld (policy w) (<[this := l2]> (heap w)) (next_ptr w)
                      (trace w ++ watch_calls (subchannel_data_ l)) in
    world_ok w1 ∧
    MaybeUpdateRoundRobinConnectivityStateLocked this st rnd w1
    = Some ((), w').
Proof.
  intros Hok Hl HS. pose proof (wok_lists w Hok _ _ Hl) as Hlok.
  unfold StartWatchingLocked in HS. unfold bind at 1, load in HS.
  rewrite Hl in HS. unfold bind at 1, lift in HS.
  destruct (StartWatchingLocked_poll poll 0 _ l) as [l1 |] eqn:HP; [| done].
  destruct (StartWatchingLocked_poll_preserves _ _ _ _ _ Hlok HP)
    as (Hok1 & Hlen1 & Hsub1).
  unfold bind at 1, lift in HS.
  destruct (StartWatchingLocked_watch 0 _ l1) as [[cs l2] |] eqn:HW; [| done].
  destruct (StartWatchingLocked_watch_spec _ _ _ _ _ Hok1 HW)
    as (Hok2 & Hcs & _ & _ & _ & Hlen2).
  rewrite drop_0, take_ge in Hcs by done.
  rewrite (watch_calls_ext _ _ Hsub1) in Hcs. subst cs.
  exists l2. split; [done |]. split; [congruence |].
  split; [by eapply world_ok_store_trace |].
  exact HS.
Qed.

Lemma StartWatchingLocked_world_ok poll this st rnd w w' :
  world_ok w → StartWatchingLocked poll this st rnd w = Some ((), w') →
  world_ok w'.
Proof.
  intros Hok HS.
  destruct (heap w !! this) as [l |] eqn:Hl;
    [| by unfold StartWatchingLocked, bind, load in HS; rewrite Hl in HS].
  destruct (StartWatchingLocked_spec _ _ _ _ _ _ _ Hok Hl HS)
    as (l2 & _ & _ & Hok1 & HM).
  by eapply MaybeUpdate_world_ok.
Qed.

Lemma list_ok_ctor addrs :
  (Z.of_nat (length addrs) < size_t_modulus)%Z →
  list_ok (RoundRobinSubchannelList_ctor addrs).
Proof.
  intros Hsz.
  assert (Hidle : Forall (λ sd, logical_connectivity_state_ sd = GRPC_CHANNEL_IDLE)
                         (subchannel_data_ (RoundRobinSubchannelList_ctor addrs))).
  { simpl. apply Forall_fmap, Forall_true. done. }
  split; simpl; unfold num_subchannels; simpl.
  - by rewrite length_map.
  - symmetry. apply count_state_none. eapply Forall_impl; [exact Hidle |].
    simpl. congruence.
  - symmetry. apply count_state_none. eapply Forall_impl; [exact Hidle |].
    simpl. congruence.
  - symmetry. apply count_state_none. eapply Forall_impl; [exact Hidle |].
    simpl. congruence.
  - eapply Forall_impl; [exact Hidle |]. simpl. congruence.
  - apply Forall_fmap, Forall_true. simpl. eauto.
Qed.

Lemma created_lookup_new addrs w :
  world_ok w →
  heap (created addrs w) !! next_ptr w
  = Some (RoundRobinSubchannelList_ctor addrs).
Proof.
  intros Hok. simpl.
  destruct (latest_pending_subchannel_list_ (policy w)) as [a |] eqn:Ha.
  - rewrite lookup_delete_ne; [apply lookup_insert_eq |].
    intros ->. pose proof (wok_next w Hok _ (wok_pending w Hok _ Ha)). lia.
  - apply lookup_insert_eq.
Qed.

Lemma created_lookup_Some addrs w a l :
  heap (created addrs w) !! a = Some l →
  (a = next_ptr w ∧ l = RoundRobinSubchannelList_ctor addrs)
  ∨ (a ≠ next_ptr w ∧ heap w !! a = Some l
     ∧ latest_pending_subchannel_list_ (policy w) ≠ Some a).
Proof.
  simpl. destruct (latest_pending_subchannel_list_ (policy w)) as [b |].
  - rewrite lookup_delete_Some, lookup_insert_Some.
    intros [Hb [[? ?] | [? ?]]]; [by left |]. right. split; [done |].
    split; [done |]. congruence.
  - rewrite lookup_insert_Some. intros [[? ?] | [? ?]]; [by left | by right].
Qed.

Lemma world_ok_created addrs w :
  world_ok w → (Z.of_nat (length addrs) < size_t_modulus)%Z →
  world_ok (created addrs w).
Proof.
  intros Hok Hsz. split.
  - intros a l Ha. apply created_lookup_Some in Ha as [[_ ->] | (_ & Ha & _)].
    + by apply list_ok_ctor.
    + by eapply wok_lists.
  - intros a Ha. simpl in Ha.
    destruct (wok_active w Hok a Ha) as [l Hl].
    pose proof (wok_next w Hok a (ex_intro _ l Hl)) as Hlt.
    exists l. simpl.
    destruct (latest_pending_subchannel_list_ (policy w)) as [b |] eqn:Hb.
    + rewrite lookup_delete_ne, lookup_insert_ne; [done | lia |].
      intros ->. by apply (wok_distinct w Hok a Ha).
    + rewrite lookup_insert_ne; [done | lia].
  - intros a [= <-]. rewrite created_lookup_new; eauto.
  - intros a Ha [= <-]. simpl in Ha.
    pose proof (wok_next w Hok _ (wok_active w Hok _ Ha)). lia.
  - intros a [l Ha]. apply created_lookup_Some in Ha as [[-> _] | (_ & Ha & _)].
    + simpl. lia.
    + pose proof (wok_next w Hok a (ex_intro _ l Ha)). simpl. lia.
Qed.

Lemma UpdateLocked_unfold poll args rnd w :
  UpdateLocked poll args rnd w
  = match addresses args with
    | StatusOr_ok addrs =>
        StartWatchingLocked poll (next_ptr w) (UpdateLocked_status_for_tf args)
                            rnd (created addrs w)
    | StatusOr_error _ =>
        if decide (subchannel_list_ (policy w) ≠ None) then Some ((), w)
        else StartWatchingLocked poll (next_ptr w)
               (UpdateLocked_status_for_tf args) rnd (created [] w)
    end.
Proof.
  unfold UpdateLocked. unfold bind at 1, get_policy.
  destruct (addresses args); [done |].
  by destruct (decide (subchannel_list_ (policy w) ≠ None)).
Qed.

Lemma UpdateLocked_world_ok poll args rnd w w' :
  world_ok w → valid_args args →
  UpdateLocked poll args rnd w = Some ((), w') → world_ok w'.
Proof.
  intros Hok Hv. rewrite UpdateLocked_unfold. unfold valid_args in Hv.
  destruct (addresses args) as [addrs | st].
  - intros HS. eapply StartWatchingLocked_world_ok; [| exact HS].
    by apply world_ok_created.
  - destruct (decide (subchannel_list_ (policy w) ≠ None)).
    + intros ?. by simplify_eq.
    + intros HS. eapply StartWatchingLocked_world_ok; [| exact HS].
      apply world_ok_created; [done |]. simpl. unfold size_t_modulus. lia.
Qed.

Lemma ShutdownLocked_unfold w :
  ShutdownLocked w
  = Some ((), mkWorld (mkRoundRobin None None true)
                (drop_list (latest_pending_subchannel_list_ (policy w))
                   (drop_list (subchannel_list_ (policy w)) (heap w)))
                (next_ptr w) (trace w)).
Proof. by destruct w as [[[a |] [b |] sh] h n tr]. Qed.

Lemma drop_list_lookup o h a l :
  drop_list o h !! a = Some l → h !! a = Some l.
Proof.
  destruct o; simpl; [| done]. rewrite lookup_delete_Some. tauto.
Qed.

Lemma ShutdownLocked_world_ok w w' :
  world_ok w → ShutdownLocked w = Some ((), w') → world_ok w'.
Proof.
  intros Hok. rewrite ShutdownLocked_unfold. intros [= <-].
  split; simpl; try done.
  - intros a l Ha. do 2 apply drop_list_lookup in Ha. by eapply wok_lists.
  - intros a [l Ha]. do 2 apply drop_list_lookup in Ha.
    apply (wok_next w Hok). eauto.
Qed.


Lemma ResetBackoffLocked_frame w w' :
  ResetBackoffLocked w = Some ((), w') →
  policy w' = policy w ∧ heap w' = heap w ∧ next_ptr w' = next_ptr w ∧
  ∃ cs, trace w' = trace w ++ cs ∧
        Forall (λ c, ∃ sc, c = ResetBackoff sc) cs.
Proof.
  destruct w as [[act pend sh] h n tr].
  unfold ResetBackoffLocked. unfold_M. simpl.
  destruct act as [a |]; simpl; [| done].
  destruct (h !! a) as [la |]; simpl; [| done].
  assert (Hrb : ∀ l, Forall (λ c, ∃ sc, c = ResetBackoff sc)
                            (SubchannelList_ResetBackoffLocked l)).
  { intros l. unfold SubchannelList_ResetBackoffLocked.
    induction (subchannel_data_ l) as [| sd sds IH]; [constructor |].
    simpl. destruct (subchannel_ sd); simpl; [constructor; eauto | done]. }
  destruct pend as [q |]; simpl.
  - destruct (h !! q) as [lq |]; simpl; [| done]. intros [= <-]. simpl.
    repeat split; try done. eexists. rewrite <- app_assoc. split; [done |].
    apply Forall_app. split; apply Hrb.
  - intros [= <-]. simpl. repeat split; try done. eauto.
Qed.

Lemma run_op_world_ok o w w' :
  world_ok w → valid_op o → run_op o w = Some ((), w') → world_ok w'.
Proof.
  intros Hok Hv Hrun. destruct o; simpl in *.
  - eapply UpdateLocked_world_ok; eauto.
  - eapply ProcessConnectivityChangeLocked_world_ok; eauto.
  - destruct (ResetBackoffLocked_frame _ _ Hrun) as (? & ? & ? & _).
    by eapply world_ok_ext.
  - eapply ShutdownLocked_world_ok; eauto.
Qed.

Lemma world_ok_initial : world_ok initial_world.
Proof.
  split; simpl; try done.
  intros a [l Hl]. by rewrite lookup_empty in Hl.
Qed.

Lemma reachable_world_ok w : reachable w → world_ok w.
Proof.
  induction 1 as [| w w' o _ IH Hv Hrun]; [apply world_ok_initial |].
  by eapply run_op_world_ok.
Qed.

Lemma run_ops_reachable ops : ∀ w w',
  reachable w → Forall valid_op ops → run_ops ops w = Some w' → reachable w'.
Proof.
  induction ops as [| o ops IH]; intros w w' Hr Hv Hrun; simpl in Hrun.
  - by simplify_eq.
  - destruct (run_op o w) as [[[] w1] |] eqn:Ho; [| done].
    apply Forall_cons in Hv as [Hvo Hv].
    eapply IH; [| exact Hv | exact Hrun].
    by eapply reachable_step.
Qed.

Lemma example_world_1_reachable : reachable example_world_1.
Proof.
  eapply (run_ops_reachable [example_update_1] initial_world);
    [apply reachable_initial | | vm_compute; reflexivity].
  repeat constructor.
Qed.

Lemma example_world_2_reachable : reachable example_world_2.
Proof.
  eapply (run_ops_reachable [example_update_1; example_update_2] initial_world);
    [apply reachable_initial | | vm_compute; reflexivity].
  repeat constructor.
Qed.

Lemma example_list_1_ok : list_ok example_list_1.
Proof.
  split; simpl; try done.
  - by repeat constructor.
  - repeat constructor; by eexists.
Qed.

Lemma UpdateLocked_no_active poll args rnd w :
  subchannel_list_ (policy w) = None →
  UpdateLocked poll args rnd w
  = StartWatchingLocked poll (next_ptr w) (UpdateLocked_status_for_tf args) rnd
      (created (UpdateLocked_addresses args) w).
Proof.
  intros Hact. rewrite UpdateLocked_unfold. unfold UpdateLocked_addresses.
  destruct (addresses args); [done |].
  rewrite decide_False; [done |]. rewrite Hact. by intros ?.
Qed.

Lemma UpdateLocked_no_active_spec poll args rnd w w' :
  world_ok w → valid_args args → subchannel_list_ (policy w) = None →
  UpdateLocked poll args rnd w = Some ((), w') →
  let st := UpdateLocked_status_for_tf args in
  ∃ l' report,
    list_ok l' ∧
    length (subchannel_data_ l') = length (UpdateLocked_addresses args) ∧
    policy w' = mkRoundRobin (Some (next_ptr w)) None (shutdown_ (policy w)) ∧
    heap w' !! next_ptr w = Some l' ∧
    trace w' = trace w
               ++ map RequestConnection (UpdateLocked_addresses args)
               ++ report ∧
    ((0 < num_ready_ l')%Z →
       ∃ pk, Picker_ctor l' rnd = Some pk ∧
             report = [UpdateState GRPC_CHANNEL_READY OkStatus
                                   (RoundRobinPicker pk)]) ∧
    (num_ready_ l' = 0%Z → (0 < num_connecting_ l')%Z →
       report = [UpdateState GRPC_CHANNEL_CONNECTING OkStatus QueuePicker]) ∧
    (num_ready_ l' = 0%Z → num_connecting_ l' = 0%Z →
     num_transient_failure_ l' = num_subchannels l' →
       report = [UpdateState GRPC_CHANNEL_TRANSIENT_FAILURE st
                             (TransientFailurePicker st)]) ∧
    (num_ready_ l' = 0%Z → num_connecting_ l' = 0%Z →
     num_transient_failure_ l' ≠ num_subchannels l' → report = []).
Proof.
  intros Hok Hv Hact HU st. rewrite UpdateLocked_no_active in HU by done.
  set (addrs := UpdateLocked_addresses args) in *.
  assert (Hsz : (Z.of_nat (length addrs) < size_t_modulus)%Z).
  { unfold addrs, UpdateLocked_addresses, valid_args in *.
    destruct (addresses args); [done |]. simpl. unfold size_t_modulus. lia. }
  pose proof (world_ok_created addrs w Hok Hsz) as Hok0.
  pose proof (created_lookup_new addrs w Hok) as Hnew.
  destruct (StartWatchingLocked_spec _ _ _ _ _ _ _ Hok0 Hnew HU)
    as (l2 & Hok2 & Hlen & Hok1 & HM).
  match type of HM with
  | MaybeUpdateRoundRobinConnectivityStateLocked _ _ _ ?w0 = _ =>
      set (w1 := w0) in *;
      destruct (MaybeUpdate_spec (next_ptr w) st rnd w1 l2
                  (lookup_insert_eq _ _ _) Hok2 (wok_active _ Hok1))
        as (w'' & report & HM' & _ & Hp & _ & Ht & _ & Hrep & _)
  end.
  unfold st in HM'. rewrite HM in HM'. simplify_eq.
  assert (Hc : swap_cond (next_ptr w) l2 w1).
  { split; [done |]. left. simpl. exact Hact. }
  destruct (Hp Hc) as [Hpol Hheap]. subst w1. simpl in Hpol, Hheap, Ht.
  rewrite Hact in Hheap.
  exists l2, report. split; [done |].
  split; [by rewrite Hlen; simpl; rewrite length_map |].
  split; [done |].
  split; [rewrite Hheap; apply lookup_insert_eq |].
  split.
  { rewrite Ht. rewrite <- app_assoc. do 2 f_equal.
    unfold watch_calls. clear. induction addrs as [| a addrs IH]; [done |].
    simpl. f_equal. exact IH. }
  apply Hrep. by rewrite Hpol.
Qed.

Lemma UpdateLocked_no_active_empty poll args rnd w :
  world_ok w → subchannel_list_ (policy w) = None →
  UpdateLocked_addresses args = [] →
  let st := UpdateLocked_status_for_tf args in
  ∃ w', UpdateLocked poll args rnd w = Some ((), w') ∧
        trace w' = trace w
                   ++ [UpdateState GRPC_CHANNEL_TRANSIENT_FAILURE st
                                   (TransientFailurePicker st)].
Proof.
  intros Hok Hact Hempty st.
    assert (Hnew : heap (created [] w) !! next_ptr w
                 = Some (RoundRobinSubchannelList_ctor []))
    by (by apply created_lookup_new).
  assert (Hrun : UpdateLocked poll args rnd w
                 = MaybeUpdateRoundRobinConnectivityStateLocked (next_ptr w)
                     st rnd (created [] w)).
  { rewrite UpdateLocked_no_active, Hempty by done.
    unfold StartWatchingLocked. unfold bind at 1, load. rewrite Hnew.
    unfold_M. cbn [StartWatchingLocked_poll StartWatchingLocked_watch
                   RoundRobinSubchannelList_ctor subchannel_data_ length
                   map fst snd].
    rewrite insert_id by exact Hnew. rewrite app_nil_r. done. }
  assert (Hok0 : world_ok (created [] w)).
  { apply world_ok_created; [done |]. simpl. unfold size_t_modulus. lia. }
  destruct (MaybeUpdate_spec (next_ptr w) st rnd (created [] w) _ Hnew
              (wok_lists _ Hok0 _ _ Hnew) (wok_active _ Hok0))
    as (w' & report & HM & _ & Hp & _ & Ht & _ & Hrep & _).
  assert (Hc : swap_cond (next_ptr w) (RoundRobinSubchannelList_ctor [])
                         (created [] w)).
  { split; [done |]. left. simpl. exact Hact. }
  destruct (Hp Hc) as [Hpol _].
  destruct Hrep as (_ & _ & Htf & _); [by rewrite Hpol |].
  exists w'. split; [by rewrite Hrun |]. rewrite Ht. simpl.
  by rewrite Htf.
Qed.

(** ** The entries of a list after an update *)

Lemma set_logical_same sd :
  set_logical_connectivity_state (logical_connectivity_state_ sd) sd = sd.
Proof. by destruct sd. Qed.

Lemma UpdateLogical_data l i raw b l' sd :
  list_ok l → subchannel l i = Some sd →
  UpdateLogicalConnectivityStateLocked i raw l = Some (b, l') →
  ∃ s, s ≠ GRPC_CHANNEL_IDLE ∧ s ≠ GRPC_CHANNEL_SHUTDOWN ∧
       subchannel_data_ l'
       = <[i := set_logical_connectivity_state s sd]> (subchannel_data_ l) ∧
       (b = true ↔ s ≠ logical_connectivity_state_ sd) ∧
       (s = GRPC_CHANNEL_READY ↔ raw = GRPC_CHANNEL_READY) ∧
       (logical_connectivity_state_ sd ≠ GRPC_CHANNEL_TRANSIENT_FAILURE →
        s = if decide (raw = GRPC_CHANNEL_IDLE)
            then GRPC_CHANNEL_CONNECTING else raw).
Proof.
  intros Hok Hi HU.
  assert (Hcur : logical_connectivity_state_ sd ≠ GRPC_CHANNEL_SHUTDOWN).
  { eapply (Forall_lookup_1 _ _ _ _ (ok_no_shutdown l Hok)), Hi. }
  assert (Hid : subchannel_data_ l
                = <[i := sd]> (subchannel_data_ l))
    by (symmetry; by apply list_insert_id).
  destruct (decide (logical_connectivity_state_ sd = GRPC_CHANNEL_TRANSIENT_FAILURE
                    ∧ raw ≠ GRPC_CHANNEL_READY)) as [[Hs Hr] | Hns].
  { rewrite (UpdateLogical_sticky _ _ _ _ Hi Hs Hr) in HU. simplify_eq.
    exists GRPC_CHANNEL_TRANSIENT_FAILURE. rewrite <- Hs, set_logical_same.
    rewrite Hs. split; [done |]. split; [done |]. split; [done |].
    split; [split; [done | intros H; by destruct H] |].
    split; [split; [done | intros ->; by destruct Hr] |].
    intros H; by destruct H. }
  set (new_state := if decide (raw = GRPC_CHANNEL_IDLE)
                    then GRPC_CHANNEL_CONNECTING else raw).
  assert (Hnew_idle : new_state ≠ GRPC_CHANNEL_IDLE).
  { unfold new_state. by destruct (decide (raw = GRPC_CHANNEL_IDLE)). }
  assert (Hnew_ready : new_state = GRPC_CHANNEL_READY ↔ raw = GRPC_CHANNEL_READY).
  { unfold new_state. destruct (decide (raw = GRPC_CHANNEL_IDLE)) as [-> | ?];
      [split; intros [=] | done]. }
  destruct (decide (new_state = logical_connectivity_state_ sd)) as [Hsame | Hne].
  { rewrite (UpdateLogical_same _ _ _ _ Hi Hsame) in HU.
    injection HU as <- <-.
    exists new_state. split; [done |].
    split; [by rewrite Hsame |].
    split; [by rewrite Hsame, set_logical_same |].
    split; [split; [done | intros H; by destruct H] |].
    split; done. }
  destruct (decide (raw = GRPC_CHANNEL_SHUTDOWN)) as [-> | Hraw].
  { rewrite (UpdateLogical_moves _ _ _ _ Hi Hns Hne) in HU.
    simpl in HU. by rewrite UpdateStateCountersLocked_shutdown in HU. }
  assert (Hnew : new_state ≠ GRPC_CHANNEL_SHUTDOWN).
  { unfold new_state. by destruct (decide (raw = GRPC_CHANNEL_IDLE)). }
  destruct (UpdateStateCountersLocked_ok l i sd new_state Hok Hi Hnew Hne)
    as (l1 & HU1 & Hd & _).
  rewrite (UpdateLogical_moves _ _ _ _ Hi Hns Hne) in HU.
  fold new_state in HU. rewrite HU1 in HU. simpl in HU. simplify_eq.
  exists new_state. simpl. rewrite Hd.
  split; [done |]. split; [done |]. split; [done |].
  split; [split; [done | intros _; done] |].
  split; done.
Qed.

Lemma StartWatchingLocked_poll_lookup poll count : ∀ i l l',
  list_ok l → StartWatchingLocked_poll poll i count l = Some l' →
  (∀ j, j < i ∨ i + count ≤ j →
        subchannel_data_ l' !! j = subchannel_data_ l !! j) ∧
  (∀ j sd, i ≤ j < i + count → subchannel_data_ l !! j = Some sd →
     logical_connectivity_state_ sd = GRPC_CHANNEL_IDLE →
     ∃ sc, subchannel_ sd = Some sc ∧ poll sc ≠ GRPC_CHANNEL_SHUTDOWN ∧
           subchannel_data_ l' !! j
           = Some (set_logical_connectivity_state (poll sc) sd)).
Proof.
  induction count as [| count IH]; intros i l l' Hok HP; simpl in HP.
  - simplify_eq. split; [done | intros; lia].
  - destruct (subchannel l i) as [sd |] eqn:Hi; simpl in HP; [| done].
    unfold CheckConnectivityStateLocked in HP.
    destruct (subchannel_ sd) as [sc |] eqn:Hsc; simpl in HP; [| done].
    assert (∃ l1, list_ok l1 ∧
              StartWatchingLocked_poll poll (S i) count l1 = Some l' ∧
              (∀ j, j ≠ i → subchannel_data_ l1 !! j = subchannel_data_ l !! j) ∧
              (logical_connectivity_state_ sd = GRPC_CHANNEL_IDLE →
               poll sc ≠ GRPC_CHANNEL_SHUTDOWN ∧
               subchannel_data_ l1 !! i
               = Some (set_logical_connectivity_state (poll sc) sd)))
      as (l1 & Hok1 & HP1 & Hother & Hthis).
    { destruct (decide (poll sc ≠ GRPC_CHANNEL_IDLE)) as [Hni | Hidle];
        simpl in HP.
      - destruct (UpdateLogicalConnectivityStateLocked i (poll sc) l)
          as [[b l1] |] eqn:HU; simpl in HP; [| done].
        destruct (UpdateLogical_preserves _ _ _ _ _ Hok HU) as (Hok1 & _).
        destruct (UpdateLogical_data l i _ b l1 sd Hok Hi HU)
          as (s & _ & Hshut & Hd & _ & _ & Hs).
        exists l1. split; [done |]. split; [done |]. split.
        + intros j Hj. rewrite Hd. by apply list_lookup_insert_ne.
        + intros Hsd. rewrite Hs in * by congruence.
          rewrite decide_False in * by done. split; [done |].
          rewrite Hd. apply list_lookup_insert_eq. by eapply lookup_lt_Some.
      - exists l. split; [done |]. split; [done |]. split; [done |].
        intros Hsd. assert (poll sc = GRPC_CHANNEL_IDLE) as ->
          by (by destruct (decide (poll sc = GRPC_CHANNEL_IDLE)); [| destruct Hidle]).
        split; [done |]. rewrite <- Hsd, set_logical_same. exact Hi. }
    destruct (IH _ _ _ Hok1 HP1) as [Hframe Hin]. split.
    + intros j Hj. rewrite Hframe by lia. apply Hother. lia.
    + intros j sd' Hj Hsd' Hidle.
      destruct (decide (j = i)) as [-> | Hne].
      * unfold subchannel in Hi. simplify_eq.
        destruct (Hthis Hidle) as [Hns Hl1]. exists sc.
        split; [done |]. split; [done |]. rewrite Hframe by lia. done.
      * apply Hin; [lia | | done]. rewrite Hother by done. done.
Qed.

Lemma StartWatchingLocked_watch_lookup count : ∀ i l cs l',
  list_ok l → StartWatchingLocked_watch i count l = Some (cs, l') →
  ∀ j, subchannel_data_ l' !! j
       = if decide (i ≤ j < i + count)
         then StartConnectivityWatchLocked <$> subchannel_data_ l !! j
         else subchannel_data_ l !! j.
Proof.
  induction count as [| count IH]; intros i l cs l' Hok HW j; simpl in HW.
  - simplify_eq. rewrite decide_False by lia. done.
  - destruct (subchannel l i) as [sd |] eqn:Hi; simpl in HW; [| done].
    destruct (Forall_lookup_1 _ _ _ _ (ok_subchannel l Hok) Hi) as [sc Hsc].
    rewrite Hsc in HW.
    match type of HW with
    | context [StartWatchingLocked_watch _ _ ?l1] =>
        destruct (StartWatchingLocked_watch (S i) count l1)
          as [[cs1 l2] |] eqn:HW1; simpl in HW; [| done];
        pose proof (IH (S i) l1 cs1 l2 (list_ok_watch l i sd Hok Hi) HW1 j)
          as Hj
    end.
    simplify_eq. rewrite Hj. cbn [set_subchannel_data subchannel_data_].
    destruct (decide (j = i)) as [-> | Hne].
    + destruct (decide (S i ≤ i < S i + count)); [lia |].
      destruct (decide (i ≤ i < i + S count)); [| lia].
      unfold subchannel in Hi.
      rewrite list_lookup_insert_eq by (by eapply lookup_lt_Some).
      by rewrite Hi.
    + rewrite list_lookup_insert_ne by done.
      destruct (decide (S i ≤ j < S i + count)).
      * destruct (decide (i ≤ j < i + S count)); [done | lia].
      * destruct (decide (i ≤ j < i + S count)); [lia | done].
Qed.

Lemma StartWatchingLocked_poll_total poll count : ∀ i l,
  list_ok l → i + count ≤ length (subchannel_data_ l) →
  Forall (λ sd, ∀ sc, subchannel_ sd = Some sc →
                      poll sc ≠ GRPC_CHANNEL_SHUTDOWN) (subchannel_data_ l) →
  is_Some (StartWatchingLocked_poll poll i count l).
Proof.
  induction count as [| count IH]; intros i l Hok Hlen Hpoll; simpl.
  - by eexists.
  - destruct (lookup_lt_is_Some_2 (subchannel_data_ l) i) as [sd Hi]; [lia |].
    unfold subchannel. rewrite Hi. simpl.
    destruct (Forall_lookup_1 _ _ _ _ (ok_subchannel l Hok) Hi) as [sc Hsc].
    unfold CheckConnectivityStateLocked. rewrite Hsc. simpl.
    destruct (decide (poll sc ≠ GRPC_CHANNEL_IDLE)); simpl.
    + destruct (UpdateLogical_ok l i sd (poll sc) Hok Hi)
        as (b & l1 & HU & Hok1 & Hlen1 & Hsub1).
      { eapply (Forall_lookup_1 _ _ _ _ Hpoll); eauto. }
      rewrite HU. simpl. apply IH; [done | lia |].
      apply Forall_lookup. intros j sd' Hj sc' Hsc'.
      assert (Hfj : (subchannel_ <$> subchannel_data_ l) !! j = Some (Some sc')).
      { rewrite <- Hsub1, list_lookup_fmap, Hj. simpl. by rewrite Hsc'. }
      rewrite list_lookup_fmap in Hfj.
      destruct (subchannel_data_ l !! j) as [sd0 |] eqn:Hj0; [| done].
      simpl in Hfj. simplify_eq.
      by eapply (Forall_lookup_1 _ _ _ _ Hpoll Hj0).
    + apply IH; [done | lia | done].
Qed.

Lemma StartWatchingLocked_watch_total count : ∀ i l,
  i + count ≤ length (subchannel_data_ l) →
  is_Some (StartWatchingLocked_watch i count l).
Proof.
  induction count as [| count IH]; intros i l Hlen; simpl.
  - by eexists.
  - destruct (lookup_lt_is_Some_2 (subchannel_data_ l) i) as [sd Hi]; [lia |].
    unfold subchannel. rewrite Hi. simpl.
    destruct (subchannel_ sd) as [sc |].
    + match goal with
      | |- context [StartWatchingLocked_watch _ _ ?l1] =>
          destruct (IH (S i) l1) as [[cs l2] ->]
      end; [simpl; rewrite length_insert; lia | by eexists].
    + apply IH. lia.
Qed.

Lemma StartWatchingLocked_run poll this st rnd w l l1 cs l2 :
  heap w !! this = Some l →
  StartWatchingLocked_poll poll 0 (length (subchannel_data_ l)) l = Some l1 →
  StartWatchingLocked_watch 0 (length (subchannel_data_ l1)) l1
  = Some (cs, l2) →
  StartWatchingLocked poll this st rnd w
  = MaybeUpdateRoundRobinConnectivityStateLocked this st rnd
      (mkWorld (policy w) (<[this := l2]> (heap w)) (next_ptr w)
               (trace w ++ cs)).
Proof.
  intros Hl HP HW. unfold StartWatchingLocked. unfold bind at 1, load.
  rewrite Hl. unfold bind at 1, lift. rewrite HP.
  unfold bind at 1, lift. rewrite HW. done.
Qed.

Lemma StartWatchingLocked_inv poll this st rnd w w' :
  StartWatchingLocked poll this st rnd w = Some ((), w') →
  ∃ l l1 cs l2,
    heap w !! this = Some l ∧
    StartWatchingLocked_poll poll 0 (length (subchannel_data_ l)) l = Some l1 ∧
    StartWatchingLocked_watch 0 (length (subchannel_data_ l1)) l1
    = Some (cs, l2).
Proof.
  intros HS. unfold StartWatchingLocked in HS. unfold bind at 1, load in HS.
  destruct (heap w !! this) as [l |] eqn:Hl; [| done].
  unfold bind at 1, lift in HS.
  destruct (StartWatchingLocked_poll poll 0 _ l) as [l1 |] eqn:HP; [| done].
  unfold bind at 1, lift in HS.
  destruct (StartWatchingLocked_watch 0 _ l1) as [[cs l2] |] eqn:HW; [| done].
  by exists l, l1, cs, l2.
Qed.

Lemma lookup_Stdlib_map {A B} (f : A → B) (l : list A) (j : nat) :
  map f l !! j = f <$> l !! j.
Proof.
  revert j. induction l as [| x l IH]; intros [| j]; simpl; auto.
Qed.

Lemma count_state_polled poll s (addrs : list ServerAddress) :
  count_state s (map (λ a, mkSubchannelData (Some a) true (poll a)) addrs)
  = Z.of_nat (length (filter (λ a, poll a = s) addrs)).
Proof.
  induction addrs as [| a addrs IH]; [done |].
  cbn [map]. rewrite count_state_cons, IH, filter_cons. unfold delta.
  cbn [logical_connectivity_state_].
  unfold ServerAddress, SubchannelInterface in *.
  destruct (decide (poll a = s)); cbn [length]; lia.
Qed.

Lemma StartWatchingLocked_fresh poll (addrs : list ServerAddress) l1 cs l2 :
  (Z.of_nat (length addrs) < size_t_modulus)%Z →
  StartWatchingLocked_poll poll 0
    (length (subchannel_data_ (RoundRobinSubchannelList_ctor addrs)))
    (RoundRobinSubchannelList_ctor addrs) = Some l1 →
  StartWatchingLocked_watch 0 (length (subchannel_data_ l1)) l1
  = Some (cs, l2) →
  list_ok l2 ∧
  subchannel_data_ l2
  = map (λ a, mkSubchannelData (Some a) true (poll a)) addrs ∧
  cs = map RequestConnection addrs ∧
  Forall (λ a, poll a ≠ GRPC_CHANNEL_SHUTDOWN) addrs.
Proof.
  intros Hsz HP HW. unfold ServerAddress, SubchannelInterface in *.
  set (l0 := RoundRobinSubchannelList_ctor addrs) in *.
  assert (Hlok0 : list_ok l0) by (by apply list_ok_ctor).
  assert (Hlen0 : length (subchannel_data_ l0) = length addrs)
    by (unfold l0; simpl; by rewrite length_map).
  assert (Hfresh : ∀ j a, addrs !! j = Some a →
            subchannel_data_ l0 !! j
            = Some (mkSubchannelData (Some a) false GRPC_CHANNEL_IDLE)).
  { intros j a Hj. unfold l0. simpl. rewrite lookup_Stdlib_map.
    unfold ServerAddress, SubchannelInterface in *. by rewrite Hj. }
  destruct (StartWatchingLocked_poll_preserves _ _ _ _ _ Hlok0 HP)
    as (Hok1 & Hlen1 & Hsub1).
  destruct (StartWatchingLocked_poll_lookup _ _ _ _ _ Hlok0 HP) as [_ Hin].
  destruct (StartWatchingLocked_watch_spec _ _ _ _ _ Hok1 HW)
    as (Hok2 & Hcs & _ & _ & _ & Hlen2).
  pose proof (StartWatchingLocked_watch_lookup _ _ _ _ _ Hok1 HW) as Hlook2.
  assert (Hl1 : ∀ j a, addrs !! j = Some a →
            poll a ≠ GRPC_CHANNEL_SHUTDOWN ∧
            subchannel_data_ l1 !! j
            = Some (mkSubchannelData (Some a) false (poll a))).
  { intros j a Hj.
    destruct (Hin j _ (conj (Nat.le_0_l j)
                (eq_ind_r (λ n, j < 0 + n) (lookup_lt_Some _ _ _ Hj) Hlen0))
                (Hfresh j a Hj) eq_refl)
      as (sc & Hsc & Hns & Hlk).
    simpl in Hsc. simplify_eq. done. }
  split; [done |]. split; [| split].
  - apply list_eq. intros j. rewrite Hlook2, lookup_Stdlib_map.
    unfold ServerAddress, SubchannelInterface in *.
    destruct (addrs !! j) as [a |] eqn:Hj.
    + pose proof (lookup_lt_Some _ _ _ Hj).
      rewrite decide_True by lia.
      destruct (Hl1 j a Hj) as [_ ->]. done.
    + apply lookup_ge_None in Hj.
      rewrite decide_False by lia. simpl.
      apply lookup_ge_None. lia.
  - rewrite Hcs, drop_0, take_ge by done.
    rewrite (watch_calls_ext _ _ Hsub1). unfold watch_calls. simpl.
    clear. induction addrs as [| a addrs IH]; [done |].
    simpl. f_equal. exact IH.
  - apply Forall_lookup. intros j a Hj. by destruct (Hl1 j a Hj).
Qed.

Lemma UpdateLocked_no_active_data poll args rnd w w' :
  world_ok w → valid_args args → subchannel_list_ (policy w) = None →
  UpdateLocked poll args rnd w = Some ((), w') →
  let addrs := UpdateLocked_addresses args in
  ∃ l',
    heap w' !! next_ptr w = Some l' ∧
    subchannel_data_ l'
    = map (λ a, mkSubchannelData (Some a) true (poll a)) addrs ∧
    num_ready_ l'
    = Z.of_nat (length (filter (λ a, poll a = GRPC_CHANNEL_READY) addrs)) ∧
    num_connecting_ l'
    = Z.of_nat (length (filter (λ a, poll a = GRPC_CHANNEL_CONNECTING)
                               addrs)) ∧
    num_transient_failure_ l'
    = Z.of_nat (length (filter (λ a, poll a = GRPC_CHANNEL_TRANSIENT_FAILURE)
                               addrs)).
Proof.
  intros Hok Hv Hact HU addrs.
  destruct (UpdateLocked_no_active_spec _ _ _ _ _ Hok Hv Hact HU)
    as (l' & _ & Hlok & _ & _ & Hheap & _).
  rewrite UpdateLocked_no_active in HU by done. fold addrs in HU.
  assert (Hsz : (Z.of_nat (length addrs) < size_t_modulus)%Z).
  { unfold addrs, UpdateLocked_addresses, valid_args in *.
    destruct (addresses args); [done |]. simpl. unfold size_t_modulus. lia. }
  pose proof (world_ok_created addrs w Hok Hsz) as Hok0.
  pose proof (created_lookup_new addrs w Hok) as Hnew.
  destruct (StartWatchingLocked_inv _ _ _ _ _ _ HU)
    as (l & l1 & cs & l2 & Hl & HP & HW).
  rewrite Hnew in Hl. injection Hl as <-.
  destruct (StartWatchingLocked_fresh _ _ _ _ _ Hsz HP HW)
    as (Hok2 & Hd2 & _ & _).
  rewrite (StartWatchingLocked_run _ _ _ _ _ _ _ _ _ Hnew HP HW) in HU.
  match type of HU with
  | MaybeUpdateRoundRobinConnectivityStateLocked _ ?st _ ?wx = _ =>
      set (w1 := wx) in *;
      assert (Hok1 : world_ok w1) by (by eapply world_ok_store_trace);
      destruct (MaybeUpdate_spec (next_ptr w) st rnd w1 l2
                  (lookup_insert_eq _ _ _) Hok2 (wok_active _ Hok1))
        as (w'' & report & HM & _ & Hp & _)
  end.
  rewrite HU in HM. injection HM as <-.
  assert (Hc : swap_cond (next_ptr w) l2 w1).
  { split; [done |]. left. simpl. exact Hact. }
  destruct (Hp Hc) as [_ Hh]. subst w1. simpl in Hh. rewrite Hact in Hh.
  rewrite Hh, lookup_insert_eq in Hheap. injection Hheap as <-.
  exists l2. split; [rewrite Hh; apply lookup_insert_eq |].
  split; [done |].
  rewrite (ok_ready l2 Hok2), (ok_connecting l2 Hok2),
          (ok_transient_failure l2 Hok2), Hd2, !count_state_polled.
  done.
Qed.

(** * The claims *)

(** Claim C1. When the promotion-and-aggregation procedure runs on the list
    at [this] in a consistent policy state: if [this] is the pending list,
    it is promoted (it becomes the active list, the pending slot is emptied
    and the previous active list, if any, is destroyed) if and only if
    there is no active list, or the active list has no READY entry, or this
    list has a READY entry, or every entry of this list is
    TRANSIENT_FAILURE (which includes the empty list); otherwise the policy
    and the lists stay as they were. A list that is not the pending list is
    never promoted. *)
Theorem C1_promotion_iff (this : ptr) (st : Status) (rnd : Z) (w : World)
    (l : RoundRobinSubchannelList) :
  world_ok w → heap w !! this = Some l →
  let cases :=
    subchannel_list_ (policy w) = None
    ∨ (∃ a la, subchannel_list_ (policy w) = Some a ∧ heap w !! a = Some la
               ∧ count_state GRPC_CHANNEL_READY (subchannel_data_ la) = 0%Z)
    ∨ (0 < count_state GRPC_CHANNEL_READY (subchannel_data_ l))%Z
    ∨ Forall (λ sd, logical_connectivity_state_ sd
                    = GRPC_CHANNEL_TRANSIENT_FAILURE) (subchannel_data_ l) in
  ∃ w',
    MaybeUpdateRoundRobinConnectivityStateLocked this st rnd w = Some ((), w') ∧
    (latest_pending_subchannel_list_ (policy w) = Some this →
       (promoted this w w' ↔ cases) ∧ (¬ cases → not_promoted w w')) ∧
    (latest_pending_subchannel_list_ (policy w) ≠ Some this →
       not_promoted w w').
Proof.
  intros Hok Hl cases.
  pose proof (wok_lists w Hok _ _ Hl) as Hlok.
  destruct (MaybeUpdate_spec this st rnd w l Hl Hlok (wok_active w Hok))
    as (w' & report & HM & _ & Hp & Hnp & _).
  assert (Hcases : latest_pending_subchannel_list_ (policy w) = Some this →
                   (swap_cond this l w ↔ cases)).
  { intros Hpend. unfold swap_cond, cases.
    rewrite <- (ok_ready l Hlok), <- count_state_all.
    fold (num_subchannels l). rewrite <- (ok_transient_failure l Hlok).
    split.
    - intros (_ & [? | [(a & la & Ha & Hla & Hz) | [? | ?]]]); auto.
      right; left. exists a, la.
      by rewrite <- (ok_ready la (wok_lists w Hok _ _ Hla)).
    - intros [? | [(a & la & Ha & Hla & Hz) | [? | ?]]]; split; auto.
      right; left. exists a, la.
      by rewrite (ok_ready la (wok_lists w Hok _ _ Hla)). }
  exists w'. split; [done |]. split.
  - intros Hpend. specialize (Hcases Hpend). split; [split |].
    + intros [Hpol _]. apply Hcases.
      destruct (swap_cond_dec this l w) as [? | Hn]; [done |].
      destruct (Hnp Hn) as [Hsame _]. rewrite Hpol in Hsame.
      rewrite <- Hsame in Hpend. done.
    + intros Hc. apply Hp, Hcases, Hc.
    + intros Hn. apply Hnp. by rewrite Hcases.
  - intros Hne. apply Hnp. intros [? _]. done.
Qed.

Lemma C1_witness :
  world_ok example_world_2 ∧ heap example_world_2 !! 1 = Some example_list_2 ∧
  ∃ w', MaybeUpdateRoundRobinConnectivityStateLocked 1 OkStatus 0
          example_world_2 = Some ((), w') ∧
        not_promoted example_world_2 w'.
Proof.
  assert (Hok : world_ok example_world_2)
    by exact (reachable_world_ok _ example_world_2_reachable).
  assert (Hl : heap example_world_2 !! 1 = Some example_list_2)
    by (vm_compute; reflexivity).
  split; [exact Hok |]. split; [exact Hl |].
  destruct (C1_promotion_iff 1 OkStatus 0 example_world_2 example_list_2
              Hok Hl) as (w' & HM & Hpend & _).
  exists w'. split; [exact HM |].
  apply (Hpend eq_refl).
  intros [H | [(a & la & Ha & Hla & Hz) | [H | H]]].
  - vm_compute in H. discriminate H.
  - vm_compute in Ha. injection Ha as <-.
    vm_compute in Hla. injection Hla as <-.
    vm_compute in Hz. discriminate Hz.
  - vm_compute in H. discriminate H.
  - apply Forall_cons in H as [H _]. discriminate H.
Defined.



(** Claim C3. For a picker over [n >= 1] subchannels whose cursor is [c]
    (an index of the snapshot, as the constructor leaves it and [Pick]
    keeps it), [Pick] sets the cursor to [(c + 1) mod n] and returns the
    subchannel at that index; [n] consecutive picks return the snapshot
    rotated to start one past the cursor, so each position exactly once,
    and leave the picker as it was, so the sequence repeats with period
    [n]. *)
Theorem C3_Pick_round_robin (pk : Picker) :
  Picker_wf pk →
  let n := Picker_size pk in
  let c := last_picked_index_ pk in
  let order := rotate (Z.to_nat (c + 1)) (subchannels_ pk) in
  (∃ sc, subchannels_ pk !! Z.to_nat ((c + 1) mod n)%Z = Some sc ∧
         Pick pk = Some (Complete sc,
                         mkPicker ((c + 1) mod n)%Z (subchannels_ pk))) ∧
  Pick_n (Z.to_nat n) pk = Some (order, pk) ∧
  order ≡ₚ subchannels_ pk ∧
  order !! 0 = subchannels_ pk !! Z.to_nat ((c + 1) mod n)%Z ∧
  ∀ m, Pick_n (m * Z.to_nat n) pk = Some (mjoin (replicate m order), pk).
Proof.
  intros Hwf n c order.
  assert (Hne : subchannels_ pk ≠ []).
  { destruct Hwf as [Hc _]. unfold Picker_size in Hc.
    destruct (subchannels_ pk); [simpl in Hc; lia | done]. }
  assert (Hn : n = Z.of_nat (length (subchannels_ pk))) by done.
  assert (Hc : (0 ≤ c < n)%Z) by apply Hwf.
  assert (Hrot : ∀ j, j < length (subchannels_ pk) →
            order !! j = subchannels_ pk !! Z.to_nat ((c + 1 + Z.of_nat j) mod n)%Z).
  { intros j Hj. unfold order. rewrite lookup_rotate_r by done.
    unfold rotate_nat_add. rewrite <- Hn. do 3 f_equal. lia. }
  assert (Hcycle : Pick_n (Z.to_nat n) pk = Some (order, pk)).
  { destruct (Pick_n_lookup (Z.to_nat n) pk Hwf) as (scs & HP & Hlen & Hlook).
    rewrite HP. f_equal. f_equal.
    - apply list_eq. intros j.
      destruct (decide (j < length (subchannels_ pk))) as [Hj | Hj].
      + rewrite Hlook, Hrot by lia. done.
      + rewrite !lookup_ge_None_2; [done | |].
        * unfold order. rewrite length_rotate. lia.
        * lia.
    - destruct pk as [c' subs]. simpl in *. f_equal.
      fold n. rewrite Z2Nat.id by lia.
      rewrite <- (Z.mul_1_l n) at 1. rewrite Z.mod_add by lia.
      apply Z.mod_small. done. }
  split; [| split; [done | split; [apply rotate_Permutation | split]]].
  - destruct (Pick_nonempty pk Hne) as (_ & sc & Hsc & HP).
    rewrite Pick_wf_cursor in Hsc, HP by done. by exists sc.
  - rewrite Hrot.
    + by rewrite Z.add_0_r.
    + destruct (subchannels_ pk); [done | simpl; lia].
  - induction m as [| m IH]; [done |].
    simpl. by apply (Pick_n_add _ _ pk pk pk).
Qed.

Lemma C3_witness :
  Picker_wf example_picker ∧
  Pick_n 3 example_picker = Some ([12; 10; 11], example_picker).
Proof.
  assert (Hwf : Picker_wf example_picker)
    by (unfold Picker_wf, Picker_size, size_t_modulus; simpl; lia).
  split; [exact Hwf |].
  exact (proj1 (proj2 (C3_Pick_round_robin example_picker Hwf))).
Defined.




(** Claim C5 fails right after [StartWatchingLocked]: an entry whose
    subchannel is polled IDLE keeps the initial logical state and is
    counted in no counter, so the sum is 0 for a list of one entry. *)
Lemma C5_counterexample :
  ∃ w l,
    UpdateLocked (λ _, GRPC_CHANNEL_IDLE)
                 (mkUpdateArgs (StatusOr_ok [7]) "") 0 initial_world
    = Some ((), w) ∧
    heap w !! 0 = Some l ∧
    (num_ready_ l + num_connecting_ l + num_transient_failure_ l)%Z
    ≠ num_subchannels l.
Proof.
  eexists _, _. split; [vm_compute; reflexivity |].
  split; [vm_compute; reflexivity |]. vm_compute. discriminate.
Qed.

(** Claim C5, amended. In every state that the policy reaches, each
    counter of each list is the number of entries in that logical state;
    the sum of the three counters is the number of entries that have left
    the initial IDLE state, hence at most the number of entries, and equal
    to it as soon as no entry is IDLE. *)
Theorem C5_counters_sum (w : World) (a : ptr) (l : RoundRobinSubchannelList) :
  reachable w → heap w !! a = Some l →
  let sds := subchannel_data_ l in
  num_ready_ l = count_state GRPC_CHANNEL_READY sds ∧
  num_connecting_ l = count_state GRPC_CHANNEL_CONNECTING sds ∧
  num_transient_failure_ l = count_state GRPC_CHANNEL_TRANSIENT_FAILURE sds ∧
  (num_ready_ l + num_connecting_ l + num_transient_failure_ l
   = num_subchannels l - count_state GRPC_CHANNEL_IDLE sds)%Z ∧
  (num_ready_ l + num_connecting_ l + num_transient_failure_ l
   ≤ num_subchannels l)%Z ∧
  (Forall (λ sd, logical_connectivity_state_ sd ≠ GRPC_CHANNEL_IDLE) sds →
   (num_ready_ l + num_connecting_ l + num_transient_failure_ l)%Z
   = num_subchannels l).
Proof.
  intros Hr Hl sds. subst sds.
  pose proof (wok_lists w (reachable_world_ok w Hr) _ _ Hl) as Hok.
  pose proof (list_ok_facts l Hok) as Hf.
  split; [apply Hok |]. split; [apply Hok |]. split; [apply Hok |].
  split; [lia |]. split; [lia |].
  intros Hidle. rewrite (count_state_none _ _ Hidle) in Hf. lia.
Qed.

Lemma C5_witness :
  reachable example_world_1 ∧ heap example_world_1 !! 0 = Some example_list_1 ∧
  (num_ready_ example_list_1 + num_connecting_ example_list_1
   + num_transient_failure_ example_list_1
   ≤ num_subchannels example_list_1)%Z.
Proof.
  assert (Hl : heap example_world_1 !! 0 = Some example_list_1)
    by (vm_compute; reflexivity).
  split; [exact example_world_1_reachable |]. split; [exact Hl |].
  exact (proj1 (proj2 (proj2 (proj2 (proj2
           (C5_counters_sum example_world_1 0 example_list_1
              example_world_1_reachable Hl)))))).
Defined.

(** Claim C6. With an active list present, an update that carries a
    resolver failure returns with the whole state unchanged: no list is
    created, the active and pending lists, their entries and counters are
    as before, and nothing is reported. *)
Theorem C6_resolver_failure_retention
    (poll : SubchannelInterface → grpc_connectivity_state)
    (st : Status) (note : string) (rnd : Z) (w : World) :
  subchannel_list_ (policy w) ≠ None →
  UpdateLocked poll (mkUpdateArgs (StatusOr_error st) note) rnd w
  = Some ((), w).
Proof.
  intros Hact. rewrite UpdateLocked_unfold. simpl. by rewrite decide_True.
Qed.

Lemma C6_witness :
  subchannel_list_ (policy example_world_1) ≠ None ∧
  UpdateLocked example_poll (mkUpdateArgs (StatusOr_error example_status) "")
               9 example_world_1
  = Some ((), example_world_1).
Proof.
  assert (Hact : subchannel_list_ (policy example_world_1) ≠ None)
    by (vm_compute; discriminate).
  split; [exact Hact |].
  exact (C6_resolver_failure_retention example_poll example_status "" 9
           example_world_1 Hact).
Defined.

(** Claim C7. A raw TRANSIENT_FAILURE or IDLE delivered to a watched entry
    makes exactly one [RequestReresolution] call and exactly one
    [RequestConnection] call on the entry's subchannel, whether or not the
    logical state changes; whatever else the notification adds to the trace
    is a state report. [StartWatchingLocked] makes no [RequestReresolution]
    call: besides the state report it only makes the [RequestConnection]
    call of its watch loop, one per entry, whatever states are polled. *)
Theorem C7_reresolution_per_notification (this : ptr) (i : nat)
    (raw : grpc_connectivity_state) (rnd : Z) (w : World)
    (l : RoundRobinSubchannelList) (sd : RoundRobinSubchannelData) :
  world_ok w → heap w !! this = Some l → subchannel l i = Some sd →
  pending_watcher_ sd = true →
  raw = GRPC_CHANNEL_TRANSIENT_FAILURE ∨ raw = GRPC_CHANNEL_IDLE →
  (∃ w' sc report,
     subchannel_ sd = Some sc ∧
     ProcessConnectivityChangeLocked this i raw rnd w = Some ((), w') ∧
     trace w' = trace w ++ [RequestReresolution; RequestConnection sc]
                        ++ report ∧
     Forall is_UpdateState report) ∧
  (∀ poll st rnd0 this0 l0 w0 w1,
     world_ok w0 → heap w0 !! this0 = Some l0 →
     StartWatchingLocked poll this0 st rnd0 w0 = Some ((), w1) →
     ∃ report,
       trace w1 = trace w0 ++ watch_calls (subchannel_data_ l0) ++ report ∧
       Forall is_UpdateState report).
Proof.
  intros Hok Hl Hi _ Hraw. split.
  - assert (Hns : raw ≠ GRPC_CHANNEL_SHUTDOWN) by (by destruct Hraw as [-> | ->]).
    destruct (ProcessConnectivityChangeLocked_spec this i raw rnd w l sd
                Hok Hl Hi Hns)
      as (w' & sc & report & Hsc & HP & _ & Ht & Hus & _).
    rewrite decide_True in Ht by done.
    by exists w', sc, report.
  - intros poll st rnd0 this0 l0 w0 w1 Hok0 Hl0 HS.
    destruct (StartWatchingLocked_spec _ _ _ _ _ _ _ Hok0 Hl0 HS)
      as (l2 & Hok2 & _ & Hok1 & HM).
    match type of HM with
    | MaybeUpdateRoundRobinConnectivityStateLocked _ _ _ ?w2 = _ =>
        destruct (MaybeUpdate_spec this0 st rnd0 w2 l2
                    (lookup_insert_eq _ _ _) Hok2 (wok_active _ Hok1))
          as (w1' & report & HM' & _ & _ & _ & Ht & _ & _ & Hus)
    end.
    rewrite HM in HM'. simplify_eq. exists report.
    split; [| done]. rewrite Ht. simpl. by rewrite <- app_assoc.
Qed.

Lemma C7_witness :
  world_ok example_world_1 ∧ heap example_world_1 !! 0 = Some example_list_1 ∧
  ∃ w' report,
    ProcessConnectivityChangeLocked 0 1 GRPC_CHANNEL_TRANSIENT_FAILURE 5
      example_world_1 = Some ((), w') ∧
    trace w' = trace example_world_1
               ++ [RequestReresolution; RequestConnection 1] ++ report ∧
    Forall is_UpdateState report.
Proof.
  assert (Hok : world_ok example_world_1)
    by exact (reachable_world_ok _ example_world_1_reachable).
  assert (Hl : heap example_world_1 !! 0 = Some example_list_1)
    by (vm_compute; reflexivity).
  split; [exact Hok |]. split; [exact Hl |].
  destruct (C7_reresolution_per_notification 0 1
              GRPC_CHANNEL_TRANSIENT_FAILURE 5 example_world_1 example_list_1
              (mkSubchannelData (Some 1) true GRPC_CHANNEL_READY)
              Hok Hl eq_refl eq_refl (or_introl eq_refl))
    as [(w' & sc & report & Hsc & HP & Ht & Hus) _].
  injection Hsc as <-.
  exists w', report. split; [exact HP |]. split; [exact Ht | exact Hus].
Defined.

(** Claim C8. For an update that finds no active list, the status handed
    to [StartWatchingLocked] of the new list is [UnavailableError] with a
    message starting with "empty address list" when the resolver result is
    a (possibly empty) address list, and the resolver's own status when it
    is a failure. The new list is promoted at once, and whenever its
    counters aggregate to TRANSIENT_FAILURE that very status is reported,
    with a fail-fast picker carrying it; no TRANSIENT_FAILURE report
    carries another status. With no address the report is always made. *)
Theorem C8_transient_failure_status
    (poll : SubchannelInterface → grpc_connectivity_state)
    (args : UpdateArgs) (rnd : Z) (w : World) :
  world_ok w → valid_args args → subchannel_list_ (policy w) = None →
  let st := UpdateLocked_status_for_tf args in
  match addresses args with
  | StatusOr_ok _ =>
      st = UnavailableError ("empty address list: " +:+ resolution_note args)
      ∧ String.prefix "empty address list" (status_message st) = true
  | StatusOr_error status => st = status
  end ∧
  UpdateLocked poll args rnd w
  = StartWatchingLocked poll (next_ptr w) st rnd
      (created (UpdateLocked_addresses args) w) ∧
  (∀ w', UpdateLocked poll args rnd w = Some ((), w') →
     ∃ l' report,
       subchannel_list_ (policy w') = Some (next_ptr w) ∧
       heap w' !! next_ptr w = Some l' ∧
       trace w' = trace w
                  ++ map RequestConnection (UpdateLocked_addresses args)
                  ++ report ∧
       (num_ready_ l' = 0%Z → num_connecting_ l' = 0%Z →
        num_transient_failure_ l' = num_subchannels l' →
          report = [UpdateState GRPC_CHANNEL_TRANSIENT_FAILURE st
                                (TransientFailurePicker st)]) ∧
       (∀ s pk, UpdateState GRPC_CHANNEL_TRANSIENT_FAILURE s pk ∈ report →
                s = st ∧ pk = TransientFailurePicker st)) ∧
  (UpdateLocked_addresses args = [] →
     ∃ w', UpdateLocked poll args rnd w = Some ((), w') ∧
           trace w' = trace w
                      ++ [UpdateState GRPC_CHANNEL_TRANSIENT_FAILURE st
                                      (TransientFailurePicker st)]).
Proof.
  intros Hok Hv Hact st.
  split.
  { unfold st, UpdateLocked_status_for_tf.
    destruct (addresses args); [| done]. split; [done |]. done. }
  split; [by apply UpdateLocked_no_active |].
  split.
  - intros w' HU.
    destruct (UpdateLocked_no_active_spec _ _ _ _ _ Hok Hv Hact HU)
      as (l' & report & Hlok & _ & Hpol & Hheap & Ht & Hr & Hc & Htf & Hn).
    exists l', report. split; [by rewrite Hpol |]. split; [done |].
    split; [done |]. split; [done |].
    intros s pk Hin. pose proof (list_ok_facts l' Hlok) as Hf.
    destruct (decide (0 < num_ready_ l')%Z) as [Hr' | Hr'].
    { destruct (Hr Hr') as (pk' & _ & ->).
      apply list_elem_of_singleton in Hin. done. }
    destruct (decide (0 < num_connecting_ l')%Z) as [Hc' | Hc'].
    { rewrite Hc in Hin by lia. apply list_elem_of_singleton in Hin. done. }
    destruct (decide (num_transient_failure_ l' = num_subchannels l'))
      as [Ht' | Ht'].
    { rewrite Htf in Hin by lia. apply list_elem_of_singleton in Hin.
      by simplify_eq. }
    rewrite Hn in Hin by lia. by apply elem_of_nil in Hin.
  - intros Hempty. by apply UpdateLocked_no_active_empty.
Qed.

Lemma C8_witness :
  world_ok initial_world ∧
  valid_args (mkUpdateArgs (StatusOr_error example_status) "") ∧
  subchannel_list_ (policy initial_world) = None ∧
  ∃ w', UpdateLocked example_poll
          (mkUpdateArgs (StatusOr_error example_status) "") 0 initial_world
        = Some ((), w') ∧
        trace w' = [UpdateState GRPC_CHANNEL_TRANSIENT_FAILURE example_status
                                (TransientFailurePicker example_status)].
Proof.
  split; [exact world_ok_initial |]. split; [exact I |].
  split; [reflexivity |].
  exact (proj2 (proj2 (proj2
           (C8_transient_failure_status example_poll
              (mkUpdateArgs (StatusOr_error example_status) "") 0
              initial_world world_ok_initial I eq_refl))) eq_refl).
Defined.

(** Claim C9 fails for [UpdateLocked]: after [ShutdownLocked] it still
    creates a list, promotes it and, the address list being empty, reports
    TRANSIENT_FAILURE. *)
Lemma C9_counterexample :
  ∃ w1 w2,
    ShutdownLocked initial_world = Some ((), w1) ∧
    UpdateLocked (λ _, GRPC_CHANNEL_IDLE) (mkUpdateArgs (StatusOr_ok []) "")
                 0 w1 = Some ((), w2) ∧
    w2 ≠ w1 ∧
    subchannel_list_ (policy w2) = Some 0 ∧
    trace w1 = [] ∧
    trace w2 = [UpdateState GRPC_CHANNEL_TRANSIENT_FAILURE
                  (UnavailableError "empty address list: ")
                  (TransientFailurePicker
                     (UnavailableError "empty address list: "))].
Proof.
  eexists _, _. split; [vm_compute; reflexivity |].
  split; [vm_compute; reflexivity |].
  split; [intros H; apply (f_equal trace) in H; vm_compute in H; discriminate |].
  split; [vm_compute; reflexivity |].
  split; vm_compute; reflexivity.
Qed.

(** Claim C9, amended. After [ShutdownLocked] the policy has no list and
    a second [ShutdownLocked] returns with the state unchanged. The
    shutdown flag is not consulted by the other calls. [UpdateLocked]
    behaves as on any policy without an active list: it runs
    [StartWatchingLocked] on a newly created list, and whenever it returns
    that list is the active one, with no pending list, and holds one
    watched entry per address whose logical state is the polled state of
    its subchannel; the calls made are one connection request per address
    and then the report chosen by the precedence rule on the new list's
    counters. So the report is TRANSIENT_FAILURE when there is no address
    (and then the call always returns), and there is no report when, for
    instance, every address of a non-empty list is polled IDLE.
    [ResetBackoffLocked] needs an active list, which [ShutdownLocked] has
    removed, and aborts. *)
Theorem C9_after_shutdown (w w1 : World) :
  world_ok w → ShutdownLocked w = Some ((), w1) →
  policy w1 = mkRoundRobin None None true ∧
  ShutdownLocked w1 = Some ((), w1) ∧
  (∀ poll args rnd,
     UpdateLocked poll args rnd w1
     = StartWatchingLocked poll (next_ptr w1)
         (UpdateLocked_status_for_tf args) rnd
         (created (UpdateLocked_addresses args) w1)) ∧
  (∀ poll args rnd w2,
     valid_args args →
     UpdateLocked poll args rnd w1 = Some ((), w2) →
     policy w2 = mkRoundRobin (Some (next_ptr w1)) None true ∧
     is_Some (heap w2 !! next_ptr w1) ∧ w2 ≠ w1 ∧
     ∃ l' report,
       heap w2 !! next_ptr w1 = Some l' ∧
       subchannel_data_ l'
       = map (λ a, mkSubchannelData (Some a) true (poll a))
             (UpdateLocked_addresses args) ∧
       num_ready_ l'
       = Z.of_nat (length (filter (λ a, poll a = GRPC_CHANNEL_READY)
                                  (UpdateLocked_addresses args))) ∧
       num_connecting_ l'
       = Z.of_nat (length (filter (λ a, poll a = GRPC_CHANNEL_CONNECTING)
                                  (UpdateLocked_addresses args))) ∧
       num_transient_failure_ l'
       = Z.of_nat (length (filter
                             (λ a, poll a = GRPC_CHANNEL_TRANSIENT_FAILURE)
                             (UpdateLocked_addresses args))) ∧
       trace w2 = trace w1
                  ++ map RequestConnection (UpdateLocked_addresses args)
                  ++ report ∧
       ((0 < num_ready_ l')%Z →
          ∃ pk, Picker_ctor l' rnd = Some pk ∧
                Picker_wf pk ∧
                ready_subchannels (subchannel_data_ l')
                = Some (subchannels_ pk) ∧
                report = [UpdateState GRPC_CHANNEL_READY OkStatus
                                      (RoundRobinPicker pk)]) ∧
       (num_ready_ l' = 0%Z → (0 < num_connecting_ l')%Z →
          report = [UpdateState GRPC_CHANNEL_CONNECTING OkStatus
                                QueuePicker]) ∧
       (num_ready_ l' = 0%Z → num_connecting_ l' = 0%Z →
        num_transient_failure_ l' = num_subchannels l' →
          report = [UpdateState GRPC_CHANNEL_TRANSIENT_FAILURE
                                (UpdateLocked_status_for_tf args)
                                (TransientFailurePicker
                                   (UpdateLocked_status_for_tf args))]) ∧
       (num_ready_ l' = 0%Z → num_connecting_ l' = 0%Z →
        num_transient_failure_ l' ≠ num_subchannels l' → report = []) ∧
       (UpdateLocked_addresses args ≠ [] →
        Forall (λ a, poll a = GRPC_CHANNEL_IDLE)
               (UpdateLocked_addresses args) →
        report = [])) ∧
  (∀ poll args rnd,
     UpdateLocked_addresses args = [] →
     ∃ w2, UpdateLocked poll args rnd w1 = Some ((), w2) ∧
           trace w2 = trace w1
                      ++ [UpdateState GRPC_CHANNEL_TRANSIENT_FAILURE
                            (UpdateLocked_status_for_tf args)
                            (TransientFailurePicker
                               (UpdateLocked_status_for_tf args))]) ∧
  ResetBackoffLocked w1 = None.
Proof.
  intros Hok HS.
  pose proof (ShutdownLocked_world_ok _ _ Hok HS) as Hok1.
  rewrite ShutdownLocked_unfold in HS. simplify_eq.
  set (w1 := mkWorld _ _ _ _) in *.
  assert (Hact : subchannel_list_ (policy w1) = None) by done.
  split; [done |].
  split; [by rewrite ShutdownLocked_unfold |].
  split; [intros; by apply UpdateLocked_no_active |].
  split.
  { intros poll args rnd w2 Hv HU.
    destruct (UpdateLocked_no_active_spec _ _ _ _ _ Hok1 Hv Hact HU)
      as (l' & report & Hlok & _ & Hpol & Hheap & Ht & Hr & Hc & Htf & Hn).
    destruct (UpdateLocked_no_active_data _ _ _ _ _ Hok1 Hv Hact HU)
      as (l2 & Hheap2 & Hd & Hnr & Hnc & Hnt).
    rewrite Hheap in Hheap2. injection Hheap2 as <-.
    split; [done |]. split; [by eexists |].
    split; [intros ->; rewrite Hpol in Hact; done |].
    exists l', report.
    split; [exact Hheap |]. split; [exact Hd |]. split; [exact Hnr |].
    split; [exact Hnc |]. split; [exact Hnt |]. split; [exact Ht |].
    split.
    { intros Hpos. destruct (Hr Hpos) as (pk & Hpk & Hrep).
      destruct (Picker_ctor_ok l' rnd Hlok Hpos) as (pk' & Hpk' & Hwf & Hrdy).
      rewrite Hpk in Hpk'. injection Hpk' as <-. by exists pk. }
    split; [exact Hc |]. split; [exact Htf |]. split; [exact Hn |].
    intros Hne Hidle.
    assert (Hnone : ∀ s, s ≠ GRPC_CHANNEL_IDLE →
              length (filter (λ a, poll a = s) (UpdateLocked_addresses args))
              = 0).
    { intros s Hs. clear -Hidle Hs.
      induction Hidle as [| a addrs Ha _ IH]; [done |].
      rewrite filter_cons, decide_False by congruence. exact IH. }
    apply Hn.
    - by rewrite Hnr, Hnone.
    - by rewrite Hnc, Hnone.
    - rewrite Hnt, Hnone by done. unfold num_subchannels. rewrite Hd.
      rewrite length_map.
      destruct (UpdateLocked_addresses args); [done | simpl; lia]. }
  split.
  { intros poll args rnd Hempty.
    by apply UpdateLocked_no_active_empty. }
  done.
Qed.

Lemma C9_witness :
  world_ok example_world_1 ∧
  ∃ w1, ShutdownLocked example_world_1 = Some ((), w1) ∧
        ShutdownLocked w1 = Some ((), w1) ∧
        ResetBackoffLocked w1 = None ∧
        valid_args (mkUpdateArgs (StatusOr_ok [7]) "") ∧
        ∃ w2, UpdateLocked (λ _, GRPC_CHANNEL_IDLE)
                (mkUpdateArgs (StatusOr_ok [7]) "") 0 w1 = Some ((), w2) ∧
              trace w2 = trace w1 ++ [RequestConnection 7].
Proof.
  assert (Hok : world_ok example_world_1)
    by exact (reachable_world_ok _ example_world_1_reachable).
  assert (Hv : valid_args (mkUpdateArgs (StatusOr_ok [7]) ""))
    by reflexivity.
  split; [exact Hok |].
  eexists. split; [vm_compute; reflexivity |].
  match goal with
  | |- ShutdownLocked ?w1 = _ ∧ _ =>
      assert (HS : ShutdownLocked example_world_1 = Some ((), w1))
        by (vm_compute; reflexivity);
      destruct (C9_after_shutdown example_world_1 w1 Hok HS)
        as (_ & Hagain & _ & Hupdate & _ & Hreset)
  end.
  split; [exact Hagain |]. split; [exact Hreset |]. split; [exact Hv |].
  eexists. split; [vm_compute; reflexivity |].
  match goal with
  | |- trace ?w2 = _ =>
      destruct (Hupdate (λ _, GRPC_CHANNEL_IDLE)
                  (mkUpdateArgs (StatusOr_ok [7]) "") 0%Z w2 Hv)
        as (_ & _ & _ & l' & report & _ & _ & _ & _ & _ & Ht & _ & _ & _ & _
            & Hidle);
        [vm_compute; reflexivity |]
  end.
  rewrite Ht, Hidle; [reflexivity | discriminate |].
  repeat constructor.
Defined.

(** Claim C10. [Pick] on a round-robin picker with a non-empty snapshot
    always returns [Complete] with a subchannel of the snapshot, and leaves
    the snapshot as it is; a queue outcome comes only from the queue picker
    and a fail outcome only from the fail-fast picker with that status. *)
Theorem C10_Pick_always_complete (pk : Picker) :
  subchannels_ pk ≠ [] →
  (∃ sc pk', Pick pk = Some (Complete sc, pk') ∧
             sc ∈ subchannels_ pk ∧
             subchannels_ pk' = subchannels_ pk) ∧
  (∀ p r p', SubchannelPicker_Pick p = Some (r, p') →
     (r = Queue → p = QueuePicker) ∧
     (∀ st, r = Fail st → p = TransientFailurePicker st)).
Proof.
  intros Hne. split.
  - destruct (Pick_nonempty pk Hne) as (_ & sc & Hsc & HP).
    eexists _, _. split; [exact HP |]. split; [| done].
    apply list_elem_of_lookup. eauto.
  - intros p r p' HP. destruct p as [q | | st]; simpl in HP.
    + unfold Pick in HP. destruct (decide (Picker_size q = 0%Z)); [done |].
      simpl in HP. destruct (subchannels_ q !! _); simpl in HP; [| done].
      simplify_eq. split; [done | intros; done].
    + simplify_eq. split; [done | intros; done].
    + simplify_eq. split; [done |]. intros st' ?. by simplify_eq.
Qed.

Lemma C10_witness :
  subchannels_ example_picker ≠ [] ∧
  ∃ sc pk', Pick example_picker = Some (Complete sc, pk') ∧
            sc ∈ subchannels_ example_picker.
Proof.
  assert (Hne : subchannels_ example_picker ≠ []) by discriminate.
  split; [exact Hne |].
  destruct (C10_Pick_always_complete example_picker Hne)
    as [(sc & pk' & HP & Hin & _) _].
  exists sc, pk'. split; [exact HP | exact Hin].
Defined.

(** * Further properties of the code *)

Lemma example_world_3_reachable : reachable example_world_3.
Proof.
  eapply (run_ops_reachable [example_update_3] initial_world);
    [apply reachable_initial | | vm_compute; reflexivity].
  repeat constructor.
Qed.

(** ** The picker over any number of picks *)

Lemma Pick_n_cycle (pk : Picker) :
  Picker_wf pk →
  Pick_n (Z.to_nat (Picker_size pk)) pk
  = Some (rotate (Z.to_nat (last_picked_index_ pk + 1)) (subchannels_ pk), pk).
Proof.
  intros Hwf.
  destruct (Pick_n_lookup (Z.to_nat (Picker_size pk)) pk Hwf)
    as (scs & HP & Hlen & Hlook).
  assert (Hc : (0 ≤ last_picked_index_ pk < Picker_size pk)%Z) by apply Hwf.
  rewrite HP. f_equal. f_equal.
  - apply list_eq. intros j.
    destruct (decide (j < length (subchannels_ pk))) as [Hj | Hj].
    + rewrite Hlook by (unfold Picker_size; lia).
      rewrite lookup_rotate_r by done. unfold rotate_nat_add.
      fold (Picker_size pk). do 3 f_equal. lia.
    + rewrite !lookup_ge_None_2; [done | |].
      * rewrite length_rotate. lia.
      * unfold Picker_size in Hlen. lia.
  - destruct pk as [c subs]. simpl in *. f_equal.
    rewrite Z2Nat.id by lia.
    rewrite <- (Z.mul_1_l (Picker_size _)) at 1. rewrite Z.mod_add by lia.
    by apply Z.mod_small.
Qed.

Lemma Pick_n_cycles (pk : Picker) (q : nat) :
  Picker_wf pk →
  Pick_n (q * Z.to_nat (Picker_size pk)) pk
  = Some (mjoin (replicate q (rotate (Z.to_nat (last_picked_index_ pk + 1))
                                     (subchannels_ pk))), pk).
Proof.
  intros Hwf. induction q as [| q IH]; [done |].
  simpl. apply (Pick_n_add _ _ pk pk pk); [by apply Pick_n_cycle | done].
Qed.

Lemma Pick_n_prefix (pk : Picker) (r : nat) :
  Picker_wf pk → r ≤ length (subchannels_ pk) →
  Pick_n r pk
  = Some (take r (rotate (Z.to_nat (last_picked_index_ pk + 1))
                         (subchannels_ pk)),
          mkPicker ((last_picked_index_ pk + Z.of_nat r) mod Picker_size pk)%Z
                   (subchannels_ pk)).
Proof.
  intros Hwf Hr.
  destruct (Pick_n_lookup r pk Hwf) as (scs & HP & Hlen & Hlook).
  assert (Hc : (0 ≤ last_picked_index_ pk < Picker_size pk)%Z) by apply Hwf.
  rewrite HP. do 2 f_equal. apply list_eq. intros j.
  destruct (decide (j < r)) as [Hj | Hj].
  - rewrite Hlook, lookup_take_lt by done.
    rewrite lookup_rotate_r by lia. unfold rotate_nat_add.
    fold (Picker_size pk). do 3 f_equal. lia.
  - rewrite lookup_ge_None_2 by lia.
    symmetry. apply lookup_ge_None_2. rewrite length_take. lia.
Qed.

(** X1. Any number of picks, written [q * n + r] with [r <= n], returns [q]
    full rotations of the snapshot followed by the first [r] subchannels of
    the rotation, and leaves the cursor [r] places further; so when the
    snapshot has no duplicate, every subchannel has been picked [q] or
    [q + 1] times. *)
Theorem X1_Pick_n_any_count (pk : Picker) (q r : nat) :
  Picker_wf pk → r ≤ length (subchannels_ pk) →
  let n := Z.to_nat (Picker_size pk) in
  let order := rotate (Z.to_nat (last_picked_index_ pk + 1)) (subchannels_ pk) in
  Pick_n (q * n + r) pk
  = Some (mjoin (replicate q order) ++ take r order,
          mkPicker ((last_picked_index_ pk + Z.of_nat r) mod Picker_size pk)%Z
                   (subchannels_ pk)) ∧
  (NoDup (subchannels_ pk) →
   ∀ sc, sc ∈ subchannels_ pk →
     let picked := length (filter (λ x, x = sc)
                             (mjoin (replicate q order) ++ take r order)) in
     q ≤ picked ≤ q + 1).
Proof.
  intros Hwf Hr n order. split.
  - eapply Pick_n_add; [by apply Pick_n_cycles | by apply Pick_n_prefix].
  - intros Hnd sc Hsc picked. subst picked.
    assert (Hnd' : NoDup order).
    { unfold order, rotate. apply NoDup_app. 
      rewrite <- (take_drop (Z.to_nat (last_picked_index_ pk + 1) `mod` length (subchannels_ pk)) (subchannels_ pk)) in Hnd.
      apply NoDup_app in Hnd as (H1 & H2 & H3).
      split; [done |]. split; [| done]. intros x Hx1 Hx2. by apply (H2 x). }
    assert (Hin : sc ∈ order) by (by apply elem_of_rotate).
    assert (Hcount : ∀ l : list SubchannelInterface, NoDup l →
              length (filter (λ x, x = sc) l)
              = if decide (sc ∈ l) then 1 else 0).
    { clear. induction 1 as [| x l Hx Hl IH]; [done |].
      rewrite filter_cons. destruct (decide (x = sc)) as [-> | Hne]; simpl.
      - rewrite IH, decide_False by done.
        rewrite decide_True by (apply elem_of_cons; auto). done.
      - rewrite IH. destruct (decide (sc ∈ l)) as [Hl' | Hl'].
        + rewrite decide_True by (apply elem_of_cons; auto). done.
        + rewrite decide_False; [done |].
          intros [? | ?]%elem_of_cons; [by subst | done]. }
    rewrite filter_app, length_app.
    assert (Hfull : length (filter (λ x, x = sc) (mjoin (replicate q order))) = q).
    { clear Hr. induction q as [| q IH]; [done |].
      simpl. rewrite filter_app, length_app, IH.
      rewrite (Hcount order Hnd'), decide_True by done. lia. }
    rewrite Hfull.
    assert (NoDup (take r order)) as Hnd''.
    { rewrite <- (take_drop r order) in Hnd'. by apply NoDup_app in Hnd' as [? _]. }
    rewrite (Hcount _ Hnd''). case_decide; lia.
Qed.

Lemma X1_witness :
  Picker_wf example_picker ∧ 2 ≤ length (subchannels_ example_picker) ∧
  Pick_n 5 example_picker
  = Some ([12; 10; 11; 12; 10], mkPicker 0 [10; 11; 12]).
Proof.
  assert (Hwf : Picker_wf example_picker)
    by (unfold Picker_wf, Picker_size, size_t_modulus; simpl; lia).
  assert (Hr : 2 ≤ length (subchannels_ example_picker)) by (simpl; lia).
  split; [exact Hwf |]. split; [exact Hr |].
  exact (proj1 (X1_Pick_n_any_count example_picker 1 2 Hwf Hr)).
Defined.

Lemma ready_subchannels_elem sds scs sc :
  ready_subchannels sds = Some scs →
  sc ∈ scs ↔ ∃ sd, sd ∈ sds ∧
                   logical_connectivity_state_ sd = GRPC_CHANNEL_READY ∧
                   subchannel_ sd = Some sc.
Proof.
  revert scs. induction sds as [| sd sds IH]; intros scs Hr; simpl in Hr.
  - simplify_eq. split; [by intros ?%elem_of_nil |].
    by intros (sd & ?%elem_of_nil & _).
  - unfold connectivity_state in Hr.
    destruct (decide (logical_connectivity_state_ sd = GRPC_CHANNEL_READY))
      as [Hrd | Hrd].
    + destruct (subchannel_ sd) as [sc0 |] eqn:Hsc0; simpl in Hr; [| done].
      destruct (ready_subchannels sds) as [scs0 |]; simpl in Hr; [| done].
      simplify_eq. rewrite elem_of_cons, (IH scs0 eq_refl). split.
      * intros [-> | (sd' & Hin & ? & ?)].
        -- exists sd. split; [apply elem_of_cons; auto | done].
        -- exists sd'. split; [apply elem_of_cons; auto | done].
      * intros (sd' & [-> | Hin]%elem_of_cons & Hr' & Hs').
        -- left. congruence.
        -- right. eauto.
    + rewrite (IH scs Hr). split.
      * intros (sd' & Hin & ? & ?). exists sd'.
        split; [apply elem_of_cons; auto | done].
      * intros (sd' & [-> | Hin]%elem_of_cons & Hr' & Hs'); [done | eauto].
Qed.

Lemma Pick_n_elem (k : nat) (pk pk' : Picker) scs sc :
  Picker_wf pk → Pick_n k pk = Some (scs, pk') → sc ∈ scs →
  sc ∈ subchannels_ pk.
Proof.
  intros Hwf HP Hin.
  destruct (Pick_n_lookup k pk Hwf) as (scs' & HP' & Hlen & Hlook).
  rewrite HP in HP'. simplify_eq.
  apply list_elem_of_lookup in Hin as [j Hj].
  rewrite Hlook in Hj by (by eapply lookup_lt_Some).
  apply list_elem_of_lookup. eauto.
Qed.

(** X2. Over a consistent list the picker constructor returns exactly when
    the list has a READY entry; the picker then holds the subchannels of the
    READY entries and no other, as many as [num_ready_], its cursor is
    [rand() % num_ready_], and every pick of every later sequence of picks
    returns the subchannel of an entry that was READY. *)
Theorem X2_Picker_over_ready_entries (l : RoundRobinSubchannelList) (rnd : Z) :
  list_ok l →
  (is_Some (Picker_ctor l rnd) ↔ (0 < num_ready_ l)%Z) ∧
  ∀ pk, Picker_ctor l rnd = Some pk →
    Picker_wf pk ∧ Picker_size pk = num_ready_ l ∧
    last_picked_index_ pk = (to_size_t rnd mod num_ready_ l)%Z ∧
    (∀ sc, sc ∈ subchannels_ pk ↔
       ∃ sd, sd ∈ subchannel_data_ l ∧
             logical_connectivity_state_ sd = GRPC_CHANNEL_READY ∧
             subchannel_ sd = Some sc) ∧
    ∀ k, ∃ scs pk',
      Pick_n k pk = Some (scs, pk') ∧
      ∀ sc, sc ∈ scs →
        ∃ sd, sd ∈ subchannel_data_ l ∧
              logical_connectivity_state_ sd = GRPC_CHANNEL_READY ∧
              subchannel_ sd = Some sc.
Proof.
  intros Hok.
  destruct (ready_subchannels_ok _ (ok_subchannel l Hok)) as (scs & Hscs & Hlen).
  rewrite <- (ok_ready l Hok) in Hlen.
  pose proof (ok_size l Hok) as Hsz. unfold num_subchannels in Hsz.
  pose proof (count_state_bounds GRPC_CHANNEL_READY (subchannel_data_ l)) as Hb.
  rewrite <- (ok_ready l Hok) in Hb.
  split.
  - split.
    + intros [pk Hpk]. unfold Picker_ctor in Hpk. rewrite Hscs in Hpk.
      simpl in Hpk. destruct (decide (Z.of_nat (length scs) = 0%Z)); [done |].
      lia.
    + intros Hpos. destruct (Picker_ctor_ok l rnd Hok Hpos) as (pk & -> & _).
      by eexists.
  - intros pk Hpk. unfold Picker_ctor in Hpk. rewrite Hscs in Hpk.
    simpl in Hpk. destruct (decide (Z.of_nat (length scs) = 0%Z)); [done |].
    simplify_eq.
    assert (Hwf : Picker_wf (mkPicker (to_size_t rnd mod Z.of_nat (length scs))%Z scs)).
    { split; unfold Picker_size; simpl; [apply Z.mod_pos_bound |]; lia. }
    split; [done |]. split; [done |]. split; [by rewrite Hlen |].
    split; [intros sc; by apply ready_subchannels_elem |].
    intros k. destruct (Pick_n_lookup k _ Hwf) as (picked & HP & _ & _).
    eexists _, _. split; [exact HP |]. intros sc Hin.
    apply (ready_subchannels_elem _ _ _ Hscs).
    exact (Pick_n_elem k _ _ picked sc Hwf HP Hin).
Qed.

Lemma X2_witness :
  list_ok example_list_1 ∧ is_Some (Picker_ctor example_list_1 7).
Proof.
  split; [exact example_list_1_ok |].
  apply (proj1 (X2_Picker_over_ready_entries example_list_1 7
                  example_list_1_ok)).
  reflexivity.
Defined.

(** ** The counters *)

(** X3. [UpdateStateCountersLocked] returns exactly when neither state is
    SHUTDOWN and the counter of the old state, if it is a counted state, is
    positive; it never touches the entries. *)
Theorem X3_UpdateStateCounters_abort_conditions
    (old_state new_state : grpc_connectivity_state)
    (l : RoundRobinSubchannelList) :
  (is_Some (UpdateStateCountersLocked old_state new_state l) ↔
   old_state ≠ GRPC_CHANNEL_SHUTDOWN ∧ new_state ≠ GRPC_CHANNEL_SHUTDOWN ∧
   (old_state = GRPC_CHANNEL_READY → (0 < num_ready_ l)%Z) ∧
   (old_state = GRPC_CHANNEL_CONNECTING → (0 < num_connecting_ l)%Z) ∧
   (old_state = GRPC_CHANNEL_TRANSIENT_FAILURE →
    (0 < num_transient_failure_ l)%Z)) ∧
  (∀ l', UpdateStateCountersLocked old_state new_state l = Some l' →
         subchannel_data_ l' = subchannel_data_ l).
Proof.
  split.
  - unfold UpdateStateCountersLocked, counters_leave.
    destruct old_state, new_state; simpl;
      try (split; [by intros [? ?] | by intros (? & ? & _)]);
      try (split; [intros _; repeat split; done | intros _; by eexists]);
      (split;
       [ intros [l' Hl'];
         match type of Hl' with
         | context [bool_decide ?P] =>
             destruct (decide P) as [HP | HP];
             [| rewrite bool_decide_eq_false_2 in Hl' by done; done]
         end; repeat split; done
       | intros (_ & _ & H1 & H2 & H3);
         rewrite bool_decide_eq_true_2 by auto; by eexists ]).
  - intros l' HU. unfold UpdateStateCountersLocked, counters_leave,
      counters_enter in HU.
    destruct old_state, new_state; simpl in HU; try done;
      repeat match type of HU with
      | context [bool_decide ?P] => destruct (bool_decide P); simpl in HU
      end; by simplify_eq.
Qed.

(** X4. Moving the counters from one state to another and back restores
    them, and one move changes the sum of the three counters by one for a
    counted new state and by minus one for a counted old state. *)
Theorem X4_UpdateStateCounters_round_trip
    (old_state new_state : grpc_connectivity_state)
    (l l' : RoundRobinSubchannelList) :
  counters_in_range l →
  UpdateStateCountersLocked old_state new_state l = Some l' →
  UpdateStateCountersLocked new_state old_state l' = Some l ∧
  (num_ready_ l' + num_connecting_ l' + num_transient_failure_ l'
   = num_ready_ l + num_connecting_ l + num_transient_failure_ l
     - (1 - delta old_state GRPC_CHANNEL_IDLE)
     + (1 - delta new_state GRPC_CHANNEL_IDLE))%Z.
Proof.
  intros (Hr & Hc & Ht) HU. destruct l as [sds r c t]. simpl in *.
  unfold UpdateStateCountersLocked, counters_leave, counters_enter in *.
  destruct old_state, new_state; simpl in *; try done;
    repeat match type of HU with
    | context [bool_decide ?P] =>
        destruct (decide P);
        [rewrite (bool_decide_eq_true_2 P) in HU by done
        |rewrite (bool_decide_eq_false_2 P) in HU by done]; simpl in HU
    end; try done; simplify_eq; simpl;
    unfold set_num_ready, set_num_connecting, set_num_transient_failure,
           size_t_incr, size_t_decr, delta; simpl;
    repeat first
      [ match goal with
        | |- context [to_size_t ?z] =>
            lazymatch z with
            | context [to_size_t] => fail
            | _ => rewrite (to_size_t_small z) by lia
            end
        end
      | rewrite bool_decide_eq_true_2 by lia; simpl ];
    (split; [do 2 f_equal; lia | lia]).
Qed.

Lemma X4_witness :
  counters_in_range example_list_1 ∧
  ∃ l', UpdateStateCountersLocked GRPC_CHANNEL_READY
          GRPC_CHANNEL_TRANSIENT_FAILURE example_list_1 = Some l' ∧
        UpdateStateCountersLocked GRPC_CHANNEL_TRANSIENT_FAILURE
          GRPC_CHANNEL_READY l' = Some example_list_1.
Proof.
  assert (Hr : counters_in_range example_list_1)
    by (unfold counters_in_range, size_t_modulus; simpl; lia).
  split; [exact Hr |].
  eexists. split; [vm_compute; reflexivity |].
  refine (proj1 (X4_UpdateStateCounters_round_trip GRPC_CHANNEL_READY
                   GRPC_CHANNEL_TRANSIENT_FAILURE example_list_1 _ Hr _)).
  vm_compute. reflexivity.
Defined.

(** ** The logical state of an entry *)

(** X5. Whenever [UpdateLogicalConnectivityStateLocked] returns on a
    consistent list, the entry is in CONNECTING, READY or
    TRANSIENT_FAILURE (never IDLE again), it is READY only if the raw state
    was READY, the returned flag tells whether its state changed, its
    subchannel and watch are untouched, no other entry changed, and the
    list is consistent again. *)
Theorem X5_UpdateLogical_entry_frame (l l' : RoundRobinSubchannelList)
    (i : nat) (raw : grpc_connectivity_state) (b : bool) :
  list_ok l →
  UpdateLogicalConnectivityStateLocked i raw l = Some (b, l') →
  ∃ sd sd',
    subchannel l i = Some sd ∧ subchannel l' i = Some sd' ∧
    (logical_connectivity_state_ sd' = GRPC_CHANNEL_CONNECTING
     ∨ logical_connectivity_state_ sd' = GRPC_CHANNEL_READY
     ∨ logical_connectivity_state_ sd' = GRPC_CHANNEL_TRANSIENT_FAILURE) ∧
    (logical_connectivity_state_ sd' = GRPC_CHANNEL_READY
     → raw = GRPC_CHANNEL_READY) ∧
    (b = true ↔ logical_connectivity_state_ sd'
                ≠ logical_connectivity_state_ sd) ∧
    subchannel_ sd' = subchannel_ sd ∧
    pending_watcher_ sd' = pending_watcher_ sd ∧
    num_subchannels l' = num_subchannels l ∧
    (∀ j, j ≠ i → subchannel l' j = subchannel l j) ∧
    list_ok l'.
Proof.
  intros Hok HU.
  destruct (subchannel l i) as [sd |] eqn:Hi;
    [| by unfold UpdateLogicalConnectivityStateLocked in HU; rewrite Hi in HU].
  destruct (UpdateLogical_data l i raw b l' sd Hok Hi HU)
    as (s & Hidle & Hshut & Hd & Hb & Hready & _).
  destruct (UpdateLogical_preserves l i raw b l' Hok HU) as (Hok' & Hlen & _).
  exists sd, (set_logical_connectivity_state s sd).
  split; [done |]. split.
  { unfold subchannel. rewrite Hd. apply list_lookup_insert_eq.
    by eapply lookup_lt_Some. }
  split; [simpl; by destruct s; auto |].
  split; [simpl; apply Hready |].
  split; [done |]. split; [done |]. split; [done |].
  split; [unfold num_subchannels; by rewrite Hlen |].
  split; [| done].
  intros j Hj. unfold subchannel. rewrite Hd.
  by apply list_lookup_insert_ne.
Qed.

Lemma X5_witness :
  list_ok example_list_1 ∧
  ∃ l', UpdateLogicalConnectivityStateLocked 0 GRPC_CHANNEL_IDLE example_list_1
        = Some (true, l') ∧
        list_ok l'.
Proof.
  split; [exact example_list_1_ok |].
  eexists. split; [vm_compute; reflexivity |].
  match goal with
  | |- list_ok ?l' =>
      assert (HU : UpdateLogicalConnectivityStateLocked 0 GRPC_CHANNEL_IDLE
                     example_list_1 = Some (true, l'))
        by (vm_compute; reflexivity);
      destruct (X5_UpdateLogical_entry_frame example_list_1 l' 0
                  GRPC_CHANNEL_IDLE true example_list_1_ok HU)
        as (sd & sd' & _ & _ & _ & _ & _ & _ & _ & _ & _ & Hok)
  end.
  exact Hok.
Defined.

(** ** Notifications *)

Lemma ProcessConnectivityChangeLocked_run this i raw rnd w l sd sc b l' :
  heap w !! this = Some l → subchannel l i = Some sd →
  subchannel_ sd = Some sc →
  UpdateLogicalConnectivityStateLocked i raw l = Some (b, l') →
  let w1 := mkWorld (policy w) (<[this := l']> (heap w)) (next_ptr w)
                    (trace w ++ reresolution_calls sc raw) in
  ProcessConnectivityChangeLocked this i raw rnd w
  = if b then MaybeUpdateRoundRobinConnectivityStateLocked this
                (UnavailableError "connections to all backends failing")
                rnd w1
    else Some ((), w1).
Proof.
  intros Hl Hi Hsc HU w1. subst w1. unfold reresolution_calls.
  unfold ProcessConnectivityChangeLocked. unfold_M. rewrite Hl, Hi, Hsc, HU.
  simpl.
  destruct (decide (raw = GRPC_CHANNEL_TRANSIENT_FAILURE
                    ∨ raw = GRPC_CHANNEL_IDLE)); simpl;
    rewrite ?app_nil_r; by destruct b.
Qed.

Lemma ProcessConnectivityChangeLocked_inv this i raw rnd w w' :
  ProcessConnectivityChangeLocked this i raw rnd w = Some ((), w') →
  ∃ l sd sc b l',
    heap w !! this = Some l ∧ subchannel l i = Some sd ∧
    subchannel_ sd = Some sc ∧
    UpdateLogicalConnectivityStateLocked i raw l = Some (b, l').
Proof.
  intros HP. unfold ProcessConnectivityChangeLocked in HP.
  unfold bind at 1, load in HP.
  destruct (heap w !! this) as [l |] eqn:Hl; [| done].
  unfold bind at 1, lift in HP.
  destruct (subchannel l i) as [sd |] eqn:Hi; [| done].
  unfold bind at 1, lift in HP.
  destruct (subchannel_ sd) as [sc |] eqn:Hsc; [| done].
  destruct (UpdateLogicalConnectivityStateLocked i raw l) as [[b l'] |] eqn:HU.
  { by exists l, sd, sc, b, l'. }
  exfalso. unfold bind at 1 in HP.
  match type of HP with
  | context [match ?c w with _ => _ end] =>
      assert (∃ tr, c w = Some ((), mkWorld (policy w) (heap w) (next_ptr w) tr))
        as [tr Hc]
  end.
  { case_decide; unfold call, ret; destruct w; eauto. }
  rewrite Hc in HP. unfold bind at 1, lift in HP. done.
Qed.

(** X6. An entry in TRANSIENT_FAILURE absorbs any sequence of raw states
    other than READY, SHUTDOWN included: the policy and every list stay as
    they were, nothing is reported, and the only calls made are the
    re-resolution and reconnection requests of the TRANSIENT_FAILURE and
    IDLE notifications. *)
Theorem X6_sticky_failure_absorbs (this : ptr) (i : nat) (rnd : Z)
    (raws : list grpc_connectivity_state) (w : World)
    (l : RoundRobinSubchannelList) (sd : RoundRobinSubchannelData)
    (sc : SubchannelInterface) :
  heap w !! this = Some l → subchannel l i = Some sd →
  subchannel_ sd = Some sc →
  logical_connectivity_state_ sd = GRPC_CHANNEL_TRANSIENT_FAILURE →
  Forall (λ raw, raw ≠ GRPC_CHANNEL_READY) raws →
  run_ops (map (λ raw, Op_Notify this i raw rnd) raws) w
  = Some (mkWorld (policy w) (heap w) (next_ptr w)
                  (trace w ++ mjoin (map (reresolution_calls sc) raws))).
Proof.
  intros Hl Hi Hsc Htf Hraws. revert w Hl.
  induction Hraws as [| raw raws Hraw _ IH]; intros w Hl.
  - simpl. rewrite app_nil_r. by destruct w.
  - simpl.
    rewrite (ProcessConnectivityChangeLocked_run this i raw rnd w l sd sc
               false l Hl Hi Hsc (UpdateLogical_sticky _ _ _ _ Hi Htf Hraw)).
    rewrite insert_id by done.
    rewrite IH by done. simpl. by rewrite <- app_assoc.
Qed.

Lemma X6_witness :
  heap example_world_1 !! 0 = Some example_list_1 ∧
  ∃ w', run_ops (map (λ raw, Op_Notify 0 2 raw 0)
                     [GRPC_CHANNEL_CONNECTING; GRPC_CHANNEL_IDLE;
                      GRPC_CHANNEL_SHUTDOWN])
                example_world_1 = Some w' ∧
        policy w' = policy example_world_1 ∧
        heap w' = heap example_world_1.
Proof.
  assert (Hl : heap example_world_1 !! 0 = Some example_list_1)
    by (vm_compute; reflexivity).
  split; [exact Hl |].
  eexists. split.
  - apply (X6_sticky_failure_absorbs 0 2 0
             [GRPC_CHANNEL_CONNECTING; GRPC_CHANNEL_IDLE; GRPC_CHANNEL_SHUTDOWN]
             example_world_1 example_list_1
             (mkSubchannelData (Some 2) true GRPC_CHANNEL_TRANSIENT_FAILURE) 2
             Hl eq_refl eq_refl eq_refl).
    repeat constructor; discriminate.
  - split; reflexivity.
Defined.

Lemma MaybeUpdate_current this st rnd w l :
  world_ok w → heap w !! this = Some l →
  subchannel_list_ (policy w) = Some this
  ∨ (latest_pending_subchannel_list_ (policy w) = Some this
     ∧ ((0 < num_ready_ l)%Z
        ∨ num_transient_failure_ l = num_subchannels l)) →
  ∃ w' report,
    MaybeUpdateRoundRobinConnectivityStateLocked this st rnd w = Some ((), w') ∧
    policy w'
    = mkRoundRobin (Some this)
        (if decide (latest_pending_subchannel_list_ (policy w) = Some this)
         then None else latest_pending_subchannel_list_ (policy w))
        (shutdown_ (policy w)) ∧
    heap w' !! this = Some l ∧ next_ptr w' = next_ptr w ∧
    trace w' = trace w ++ report ∧
    ((0 < num_ready_ l)%Z →
       ∃ pk, Picker_ctor l rnd = Some pk ∧
             report = [UpdateState GRPC_CHANNEL_READY OkStatus
                                   (RoundRobinPicker pk)]) ∧
    (num_ready_ l = 0%Z → (0 < num_connecting_ l)%Z →
       report = [UpdateState GRPC_CHANNEL_CONNECTING OkStatus QueuePicker]) ∧
    (num_ready_ l = 0%Z → num_connecting_ l = 0%Z →
     num_transient_failure_ l = num_subchannels l →
       report = [UpdateState GRPC_CHANNEL_TRANSIENT_FAILURE st
                             (TransientFailurePicker st)]) ∧
    (num_ready_ l = 0%Z → num_connecting_ l = 0%Z →
     num_transient_failure_ l ≠ num_subchannels l → report = []).
Proof.
  intros Hok Hl Hcur.
  destruct (MaybeUpdate_spec this st rnd w l Hl (wok_lists w Hok _ _ Hl)
              (wok_active w Hok))
    as (w' & report & HM & Hn & Hp & Hnp & Ht & _ & Hrep & _).
  exists w', report. split; [done |].
  assert (Hpol : policy w'
    = mkRoundRobin (Some this)
        (if decide (latest_pending_subchannel_list_ (policy w) = Some this)
         then None else latest_pending_subchannel_list_ (policy w))
        (shutdown_ (policy w)) ∧ heap w' !! this = Some l).
  { destruct Hcur as [Hact | (Hpend & Hc)].
    - assert (Hne : latest_pending_subchannel_list_ (policy w) ≠ Some this)
        by (by apply (wok_distinct w Hok)).
      destruct (Hnp (λ H, Hne (proj1 H))) as [-> ->].
      rewrite decide_False by done. split; [| done].
      destruct (policy w). simpl in *. by rewrite Hact.
    - assert (Hsw : swap_cond this l w).
      { split; [done |]. destruct Hc; auto. }
      destruct (Hp Hsw) as [-> ->]. rewrite decide_True by done.
      split; [done |].
      destruct (subchannel_list_ (policy w)) as [a |] eqn:Ha; [| done].
      rewrite lookup_delete_ne; [done |]. intros ->.
      by apply (wok_distinct w Hok this). }
  destruct Hpol as [Hpol Hheap].
  split; [done |]. split; [done |]. split; [done |]. split; [done |].
  apply Hrep. by rewrite Hpol.
Qed.

(** X7. A READY notification for an entry that was not READY, in the active
    or the pending list, leaves that list active (a pending list is
    promoted) and reports READY once, with a picker that holds the entry's
    subchannel among one more subchannel than the list counted before;
    no re-resolution or reconnection is requested. *)
Theorem X7_ready_notification_reports_ready (this : ptr) (i : nat) (rnd : Z)
    (w : World) (l : RoundRobinSubchannelList)
    (sd : RoundRobinSubchannelData) :
  world_ok w → heap w !! this = Some l → subchannel l i = Some sd →
  logical_connectivity_state_ sd ≠ GRPC_CHANNEL_READY →
  subchannel_list_ (policy w) = Some this
  ∨ latest_pending_subchannel_list_ (policy w) = Some this →
  ∃ w' sc pk,
    subchannel_ sd = Some sc ∧
    ProcessConnectivityChangeLocked this i GRPC_CHANNEL_READY rnd w
    = Some ((), w') ∧
    subchannel_list_ (policy w') = Some this ∧
    latest_pending_subchannel_list_ (policy w') ≠ Some this ∧
    trace w' = trace w ++ [UpdateState GRPC_CHANNEL_READY OkStatus
                                       (RoundRobinPicker pk)] ∧
    Picker_wf pk ∧ sc ∈ subchannels_ pk ∧
    Picker_size pk = (num_ready_ l + 1)%Z.
Proof.
  intros Hok Hl Hi Hnr Hcur.
  pose proof (wok_lists w Hok _ _ Hl) as Hlok.
  destruct (Forall_lookup_1 _ _ _ _ (ok_subchannel l Hlok) Hi) as [sc Hsc].
  destruct (UpdateLogical_ok l i sd GRPC_CHANNEL_READY Hlok Hi)
    as (b & l' & HU & Hok' & _); [done |].
  destruct (UpdateLogical_data l i _ b l' sd Hlok Hi HU)
    as (s & _ & _ & Hd & Hb & Hs & _).
  assert (s = GRPC_CHANNEL_READY) as -> by (by apply Hs).
  assert (b = true) as -> by (apply Hb; congruence).
  pose proof (ProcessConnectivityChangeLocked_run this i GRPC_CHANNEL_READY
                rnd w l sd sc true l' Hl Hi Hsc HU) as Hrun.
  simpl in Hrun. unfold reresolution_calls in Hrun.
  rewrite decide_False, app_nil_r in Hrun by (intros [? | ?]; done).
  match type of Hrun with
  | _ = MaybeUpdateRoundRobinConnectivityStateLocked _ _ _ ?w0 =>
      set (w1 := w0) in *
  end.
  assert (Hok1 : world_ok w1) by (by eapply world_ok_store_trace).
  assert (Hl1 : heap w1 !! this = Some l') by apply lookup_insert_eq.
  assert (Hi' : subchannel_data_ l' !! i
                = Some (set_logical_connectivity_state GRPC_CHANNEL_READY sd)).
  { rewrite Hd. apply list_lookup_insert_eq. by eapply lookup_lt_Some. }
  assert (Hready : (num_ready_ l' = num_ready_ l + 1)%Z).
  { rewrite (ok_ready l' Hok'), (ok_ready l Hlok), Hd.
    rewrite (count_state_insert _ _ _ _ _ Hi). simpl. unfold delta.
    rewrite decide_False by done. rewrite decide_True by done. lia. }
  pose proof (list_ok_facts l Hlok) as Hf.
  assert (Hpos : (0 < num_ready_ l')%Z) by lia.
  destruct (MaybeUpdate_current this
              (UnavailableError "connections to all backends failing")
              rnd w1 l' Hok1 Hl1)
    as (w' & report & HM & Hpol & _ & _ & Ht & Hr & _).
  { destruct Hcur; [by left | right; auto]. }
  destruct (Hr Hpos) as (pk & Hpk & ->).
  destruct (Picker_ctor_ok l' rnd Hok' Hpos) as (pk' & Hpk' & Hwf & Hscs).
  rewrite Hpk in Hpk'. simplify_eq.
  exists w', sc, pk'. split; [done |]. split; [by rewrite Hrun |].
  split; [by rewrite Hpol |].
  split.
  { rewrite Hpol. simpl. destruct (decide _) as [? | Hn]; [done | exact Hn]. }
  split; [done |]. split; [done |]. split.
  - apply (ready_subchannels_elem _ _ sc Hscs).
    exists (set_logical_connectivity_state GRPC_CHANNEL_READY sd).
    split; [apply list_elem_of_lookup; eauto | done].
  - destruct (ready_subchannels_ok _ (ok_subchannel l' Hok'))
      as (scs & Hscs' & Hlen).
    rewrite Hscs in Hscs'. simplify_eq. unfold Picker_size.
    rewrite Hlen, <- (ok_ready l' Hok'). done.
Qed.

Lemma X7_witness :
  world_ok example_world_2 ∧ heap example_world_2 !! 1 = Some example_list_2 ∧
  ∃ w', ProcessConnectivityChangeLocked 1 0 GRPC_CHANNEL_READY 0
          example_world_2 = Some ((), w') ∧
        subchannel_list_ (policy w') = Some 1.
Proof.
  assert (Hok : world_ok example_world_2)
    by exact (reachable_world_ok _ example_world_2_reachable).
  assert (Hl : heap example_world_2 !! 1 = Some example_list_2)
    by (vm_compute; reflexivity).
  split; [exact Hok |]. split; [exact Hl |].
  destruct (X7_ready_notification_reports_ready 1 0 0 example_world_2
              example_list_2
              (mkSubchannelData (Some 4) true GRPC_CHANNEL_CONNECTING)
              Hok Hl eq_refl)
    as (w' & sc & pk & _ & HP & Hact & _).
  - discriminate.
  - right. vm_compute. reflexivity.
  - exists w'. split; [exact HP | exact Hact].
Defined.

(** X8. When an entry of the active or pending list fails while all the
    other entries are in TRANSIENT_FAILURE, the list is the active list
    afterwards and the policy reports TRANSIENT_FAILURE with the status
    "connections to all backends failing", after the re-resolution and
    reconnection requests. *)
Theorem X8_last_failure_reports_transient_failure (this : ptr) (i : nat)
    (rnd : Z) (w : World) (l : RoundRobinSubchannelList)
    (sd : RoundRobinSubchannelData) :
  world_ok w → heap w !! this = Some l → subchannel l i = Some sd →
  logical_connectivity_state_ sd ≠ GRPC_CHANNEL_TRANSIENT_FAILURE →
  (∀ j sd', j ≠ i → subchannel l j = Some sd' →
     logical_connectivity_state_ sd' = GRPC_CHANNEL_TRANSIENT_FAILURE) →
  subchannel_list_ (policy w) = Some this
  ∨ latest_pending_subchannel_list_ (policy w) = Some this →
  let st := UnavailableError "connections to all backends failing" in
  ∃ w' sc,
    subchannel_ sd = Some sc ∧
    ProcessConnectivityChangeLocked this i GRPC_CHANNEL_TRANSIENT_FAILURE rnd w
    = Some ((), w') ∧
    subchannel_list_ (policy w') = Some this ∧
    trace w' = trace w ++ [RequestReresolution; RequestConnection sc;
                           UpdateState GRPC_CHANNEL_TRANSIENT_FAILURE st
                                       (TransientFailurePicker st)].
Proof.
  intros Hok Hl Hi Hntf Hothers Hcur st.
  pose proof (wok_lists w Hok _ _ Hl) as Hlok.
  destruct (Forall_lookup_1 _ _ _ _ (ok_subchannel l Hlok) Hi) as [sc Hsc].
  destruct (UpdateLogical_ok l i sd GRPC_CHANNEL_TRANSIENT_FAILURE Hlok Hi)
    as (b & l' & HU & Hok' & Hlen & _); [done |].
  assert (Hmoves :
    UpdateLogicalConnectivityStateLocked i GRPC_CHANNEL_TRANSIENT_FAILURE l
    = l1 ← UpdateStateCountersLocked (logical_connectivity_state_ sd)
                                     GRPC_CHANNEL_TRANSIENT_FAILURE l;
      Some (true,
            set_subchannel_data
              (<[i := set_logical_connectivity_state
                        GRPC_CHANNEL_TRANSIENT_FAILURE sd]>
                 (subchannel_data_ l1)) l1)).
  { apply (UpdateLogical_moves l i sd GRPC_CHANNEL_TRANSIENT_FAILURE Hi).
    - intros [? _]. done.
    - simpl. congruence. }
  destruct (UpdateStateCountersLocked_ok l i sd GRPC_CHANNEL_TRANSIENT_FAILURE
              Hlok Hi) as (l1 & HU1 & Hd1 & _); [done | congruence |].
  rewrite HU1 in Hmoves. simpl in Hmoves. rewrite HU in Hmoves.
  injection Hmoves as -> ->.
  pose proof (ProcessConnectivityChangeLocked_run this i
                GRPC_CHANNEL_TRANSIENT_FAILURE rnd w l sd sc true _
                Hl Hi Hsc HU) as Hrun.
  simpl in Hrun. unfold reresolution_calls in Hrun.
  rewrite decide_True in Hrun by auto.
  match type of Hrun with
  | _ = MaybeUpdateRoundRobinConnectivityStateLocked _ _ _ ?w0 =>
      set (w1 := w0) in *
  end.
  match type of Hok' with list_ok ?x => set (l' := x) in * end.
  assert (Hok1 : world_ok w1) by (by eapply world_ok_store_trace).
  assert (Hl1 : heap w1 !! this = Some l') by apply lookup_insert_eq.
  assert (Hall : Forall (λ sd', logical_connectivity_state_ sd'
                                = GRPC_CHANNEL_TRANSIENT_FAILURE)
                        (subchannel_data_ l')).
  { apply Forall_lookup. intros j sd' Hj. subst l'. simpl in Hj.
    rewrite Hd1 in Hj.
    destruct (decide (j = i)) as [-> | Hne].
    - rewrite list_lookup_insert_eq in Hj by (by eapply lookup_lt_Some).
      by simplify_eq.
    - rewrite list_lookup_insert_ne in Hj by done. by eapply Hothers. }
  assert (Htf : num_transient_failure_ l' = num_subchannels l').
  { rewrite (ok_transient_failure l' Hok'). by apply count_state_all. }
  pose proof (list_ok_facts l' Hok') as Hf.
  destruct (MaybeUpdate_current this st rnd w1 l' Hok1 Hl1)
    as (w' & report & HM & Hpol & _ & _ & Ht & _ & _ & Hrep & _).
  { destruct Hcur; [by left | right; auto]. }
  rewrite Hrep in Ht by lia.
  exists w', sc. split; [done |]. split; [by rewrite Hrun |].
  split; [by rewrite Hpol |]. rewrite Ht. subst w1. simpl.
  by rewrite <- app_assoc.
Qed.

Lemma X8_witness :
  world_ok example_world_3 ∧ heap example_world_3 !! 0 = Some example_list_3 ∧
  ∃ w', ProcessConnectivityChangeLocked 0 1 GRPC_CHANNEL_TRANSIENT_FAILURE 0
          example_world_3 = Some ((), w') ∧
        subchannel_list_ (policy w') = Some 0.
Proof.
  assert (Hok : world_ok example_world_3)
    by exact (reachable_world_ok _ example_world_3_reachable).
  assert (Hl : heap example_world_3 !! 0 = Some example_list_3)
    by (vm_compute; reflexivity).
  split; [exact Hok |]. split; [exact Hl |].
  destruct (X8_last_failure_reports_transient_failure 0 1 0 example_world_3
              example_list_3
              (mkSubchannelData (Some 3) true GRPC_CHANNEL_CONNECTING)
              Hok Hl eq_refl)
    as (w' & sc & _ & HP & Hact & _).
  - discriminate.
  - intros [| [| j]] sd' Hj Hsd'.
    + injection Hsd' as <-. reflexivity.
    + destruct (Hj eq_refl).
    + discriminate Hsd'.
  - left. vm_compute. reflexivity.
  - exists w'. split; [exact HP | exact Hact].
Defined.

(** X9. A READY or CONNECTING notification never requests re-resolution
    or reconnection: it adds at most one state report to the trace, and
    none, with the policy and lists unchanged, when the entry already is
    in that state. *)
Theorem X9_ready_connecting_no_reresolution (this : ptr) (i : nat)
    (raw : grpc_connectivity_state) (rnd : Z) (w : World)
    (l : RoundRobinSubchannelList) (sd : RoundRobinSubchannelData) :
  world_ok w → heap w !! this = Some l → subchannel l i = Some sd →
  raw = GRPC_CHANNEL_READY ∨ raw = GRPC_CHANNEL_CONNECTING →
  ∃ w' report,
    ProcessConnectivityChangeLocked this i raw rnd w = Some ((), w') ∧
    trace w' = trace w ++ report ∧
    Forall is_UpdateState report ∧ length report ≤ 1 ∧
    (logical_connectivity_state_ sd = raw →
     report = [] ∧ policy w' = policy w ∧ heap w' = heap w).
Proof.
  intros Hok Hl Hi Hraw.
  assert (Hns : raw ≠ GRPC_CHANNEL_SHUTDOWN) by (by destruct Hraw as [-> | ->]).
  destruct (ProcessConnectivityChangeLocked_spec this i raw rnd w l sd
              Hok Hl Hi Hns)
    as (w' & sc & report & Hsc & HP & _ & Ht & Hus & Hfalse).
  rewrite decide_False in Ht by (by destruct Hraw as [-> | ->]; intros [? | ?]).
  exists w', report. split; [done |]. split; [done |]. split; [done |].
  split.
  - pose proof (wok_lists w Hok _ _ Hl) as Hlok.
    destruct (UpdateLogical_ok l i sd raw Hlok Hi Hns)
      as (b & l' & HU & Hok' & _).
    pose proof (ProcessConnectivityChangeLocked_run this i raw rnd w l sd sc
                  b l' Hl Hi Hsc HU) as Hrun. simpl in Hrun.
    destruct b.
    + match type of Hrun with
      | _ = MaybeUpdateRoundRobinConnectivityStateLocked _ ?st _ ?w0 =>
          assert (Hok1 : world_ok w0) by (by eapply world_ok_store_trace);
          destruct (MaybeUpdate_spec this st rnd w0 l'
                      (lookup_insert_eq _ _ _) Hok' (wok_active _ Hok1))
            as (w2 & report2 & HM & _ & _ & _ & Ht2 & Hne & Hrep & _)
      end.
      rewrite Hrun, HM in HP. simplify_eq.
      rewrite Ht2 in Ht. simpl in Ht. rewrite <- app_assoc in Ht.
      apply app_inv_head in Ht.
      unfold reresolution_calls in Ht.
      rewrite decide_False in Ht
        by (by destruct Hraw as [-> | ->]; intros [? | ?]).
      simpl in Ht. subst report2.
      pose proof (list_ok_facts l' Hok') as Hf.
      destruct (decide (subchannel_list_ (policy w') = Some this)) as [Ha | Ha];
        [| rewrite (Hne Ha); simpl; lia].
      destruct (Hrep Ha) as (H1 & H2 & H3 & H4).
      destruct (decide (0 < num_ready_ l')%Z) as [Hr' | Hr'].
      { destruct (H1 Hr') as (pk & _ & ->). simpl. lia. }
      destruct (decide (0 < num_connecting_ l')%Z) as [Hc' | Hc'].
      { rewrite H2 by lia. simpl. lia. }
      destruct (decide (num_transient_failure_ l' = num_subchannels l')).
      { rewrite H3 by lia. simpl. lia. }
      rewrite H4 by lia. simpl. lia.
    + destruct (Hfalse _ HU) as (-> & _). simpl. lia.
  - intros Hsame. apply (Hfalse l).
    eapply UpdateLogical_same; [done |].
    destruct Hraw as [-> | ->]; done.
Qed.

Lemma X9_witness :
  world_ok example_world_1 ∧ heap example_world_1 !! 0 = Some example_list_1 ∧
  ∃ w' report,
    ProcessConnectivityChangeLocked 0 3 GRPC_CHANNEL_READY 0 example_world_1
    = Some ((), w') ∧
    trace w' = trace example_world_1 ++ report ∧ length report ≤ 1.
Proof.
  assert (Hok : world_ok example_world_1)
    by exact (reachable_world_ok _ example_world_1_reachable).
  assert (Hl : heap example_world_1 !! 0 = Some example_list_1)
    by (vm_compute; reflexivity).
  split; [exact Hok |]. split; [exact Hl |].
  destruct (X9_ready_connecting_no_reresolution 0 3 GRPC_CHANNEL_READY 0
              example_world_1 example_list_1
              (mkSubchannelData (Some 3) true GRPC_CHANNEL_CONNECTING)
              Hok Hl eq_refl (or_introl eq_refl))
    as (w' & report & HP & Ht & _ & Hlen & _).
  exists w', report. split; [exact HP |]. split; [exact Ht | exact Hlen].
Defined.

Lemma MaybeUpdate_heap this st rnd w w' :
  world_ok w →
  MaybeUpdateRoundRobinConnectivityStateLocked this st rnd w = Some ((), w') →
  next_ptr w' = next_ptr w ∧
  shutdown_ (policy w') = shutdown_ (policy w) ∧
  (heap w' = heap w
   ∨ ∃ a, subchannel_list_ (policy w) = Some a ∧ a ≠ this
          ∧ heap w' = delete a (heap w)).
Proof.
  intros Hok HM.
  destruct (heap w !! this) as [l |] eqn:Hl;
    [| by unfold MaybeUpdateRoundRobinConnectivityStateLocked, bind, load in HM;
          rewrite Hl in HM].
  destruct (MaybeUpdate_spec this st rnd w l Hl (wok_lists w Hok _ _ Hl)
              (wok_active w Hok))
    as (w'' & report & HM' & Hn & Hp & Hnp & _).
  rewrite HM in HM'. simplify_eq. split; [done |].
  destruct (swap_cond_dec this l w) as [Hc | Hc].
  - destruct (Hp Hc) as [Hpol Hheap]. rewrite Hpol. split; [done |].
    destruct (subchannel_list_ (policy w)) as [a |] eqn:Ha; [| by left].
    right. exists a. split; [done |]. split; [| done].
    intros ->. by apply (wok_distinct w Hok this Ha), Hc.
  - destruct (Hnp Hc) as [Hpol Hheap]. rewrite Hpol. split; [done | by left].
Qed.

(** X10. A notification creates no list, keeps the shutdown flag, changes
    no list other than the one notified, and keeps the subchannels and
    watches of every entry of every list that remains. *)
Theorem X10_notification_frame (this : ptr) (i : nat)
    (raw : grpc_connectivity_state) (rnd : Z) (w w' : World) :
  world_ok w →
  ProcessConnectivityChangeLocked this i raw rnd w = Some ((), w') →
  next_ptr w' = next_ptr w ∧
  shutdown_ (policy w') = shutdown_ (policy w) ∧
  ∀ a la', heap w' !! a = Some la' →
    ∃ la, heap w !! a = Some la ∧
          (a ≠ this → la' = la) ∧
          subchannel_ <$> subchannel_data_ la'
          = subchannel_ <$> subchannel_data_ la ∧
          pending_watcher_ <$> subchannel_data_ la'
          = pending_watcher_ <$> subchannel_data_ la.
Proof.
  intros Hok HP.
  destruct (ProcessConnectivityChangeLocked_inv _ _ _ _ _ _ HP)
    as (l & sd & sc & b & l' & Hl & Hi & Hsc & HU).
  pose proof (wok_lists w Hok _ _ Hl) as Hlok.
  destruct (UpdateLogical_data l i raw b l' sd Hlok Hi HU)
    as (s & _ & _ & Hd & _).
  destruct (UpdateLogical_preserves l i raw b l' Hlok HU) as (Hok' & _ & Hsub).
  assert (Hw : pending_watcher_ <$> subchannel_data_ l'
               = pending_watcher_ <$> subchannel_data_ l).
  { rewrite Hd, list_fmap_insert. simpl. apply list_insert_id.
    unfold subchannel in Hi. by rewrite list_lookup_fmap, Hi. }
  pose proof (ProcessConnectivityChangeLocked_run this i raw rnd w l sd sc
                b l' Hl Hi Hsc HU) as Hrun. simpl in Hrun.
  rewrite HP in Hrun.
  match type of Hrun with
  | context [MaybeUpdateRoundRobinConnectivityStateLocked _ _ _ ?w0] =>
      set (w1 := w0) in *
  end.
  assert (Hok1 : world_ok w1) by (by eapply world_ok_store_trace).
  assert (Hframe1 : ∀ a la', heap w1 !! a = Some la' →
    ∃ la, heap w !! a = Some la ∧ (a ≠ this → la' = la) ∧
          subchannel_ <$> subchannel_data_ la'
          = subchannel_ <$> subchannel_data_ la ∧
          pending_watcher_ <$> subchannel_data_ la'
          = pending_watcher_ <$> subchannel_data_ la).
  { intros a la'. subst w1. simpl. rewrite lookup_insert_Some.
    intros [[<- <-] | [Hne Ha]].
    - exists l. split; [done |]. split; [done |]. done.
    - exists la'. split; [done |]. split; done. }
  destruct b.
  - symmetry in Hrun.
    destruct (MaybeUpdate_heap _ _ _ _ _ Hok1 Hrun) as (Hn & Hsh & Hheap).
    split; [done |]. split; [done |].
    intros a la' Ha. apply Hframe1.
    destruct Hheap as [Hh | (a0 & _ & _ & Hh)]; rewrite Hh in Ha; [done |].
    by apply lookup_delete_Some in Ha as [_ Ha].
  - simplify_eq. split; [done |]. split; [done |]. exact Hframe1.
Qed.

Lemma X10_witness :
  world_ok example_world_2 ∧
  ∃ w', ProcessConnectivityChangeLocked 1 0 GRPC_CHANNEL_READY 0
          example_world_2 = Some ((), w') ∧
        next_ptr w' = next_ptr example_world_2.
Proof.
  assert (Hok : world_ok example_world_2)
    by exact (reachable_world_ok _ example_world_2_reachable).
  split; [exact Hok |].
  eexists. split; [vm_compute; reflexivity |].
  match goal with
  | |- next_ptr ?w' = _ =>
      assert (HP : ProcessConnectivityChangeLocked 1 0 GRPC_CHANNEL_READY 0
                     example_world_2 = Some ((), w'))
        by (vm_compute; reflexivity);
      exact (proj1 (X10_notification_frame 1 0 GRPC_CHANNEL_READY 0
                      example_world_2 w' Hok HP))
  end.
Defined.

(** ** The start of watching *)

(** X11. An update with an address list returns exactly when no subchannel
    is polled SHUTDOWN. The new list then has one watched entry per
    address, in order, whose logical state is the polled state of its
    subchannel (IDLE entries included), its counters count the addresses
    polled READY, CONNECTING and TRANSIENT_FAILURE, it is the active or the
    pending list, and the calls made are one connection request per
    address followed by state reports only. *)
Theorem X11_update_initial_states
    (poll : SubchannelInterface → grpc_connectivity_state)
    (addrs : list ServerAddress) (note : string) (rnd : Z) (w : World) :
  world_ok w → (Z.of_nat (length addrs) < size_t_modulus)%Z →
  let args := mkUpdateArgs (StatusOr_ok addrs) note in
  (is_Some (UpdateLocked poll args rnd w)
   ↔ Forall (λ a, poll a ≠ GRPC_CHANNEL_SHUTDOWN) addrs) ∧
  ∀ w', UpdateLocked poll args rnd w = Some ((), w') →
    ∃ l' report,
      heap w' !! next_ptr w = Some l' ∧
      subchannel_data_ l'
      = map (λ a, mkSubchannelData (Some a) true (poll a)) addrs ∧
      num_ready_ l'
      = Z.of_nat (length (filter (λ a, poll a = GRPC_CHANNEL_READY) addrs)) ∧
      num_connecting_ l'
      = Z.of_nat (length (filter (λ a, poll a = GRPC_CHANNEL_CONNECTING)
                                 addrs)) ∧
      num_transient_failure_ l'
      = Z.of_nat (length (filter (λ a, poll a = GRPC_CHANNEL_TRANSIENT_FAILURE)
                                 addrs)) ∧
      (subchannel_list_ (policy w') = Some (next_ptr w)
       ∨ latest_pending_subchannel_list_ (policy w') = Some (next_ptr w)) ∧
      trace w' = trace w ++ map RequestConnection addrs ++ report ∧
      Forall is_UpdateState report.
Proof.
  intros Hok Hsz args. unfold ServerAddress, SubchannelInterface in *.
  set (this := next_ptr w). set (w0 := created addrs w).
  set (l0 := RoundRobinSubchannelList_ctor addrs).
  assert (Hok0 : world_ok w0) by (by apply world_ok_created).
  assert (Hl0 : heap w0 !! this = Some l0) by (by apply created_lookup_new).
  assert (Hlok0 : list_ok l0) by (by apply list_ok_ctor).
  assert (Hrun : UpdateLocked poll args rnd w
                 = StartWatchingLocked poll this
                     (UpdateLocked_status_for_tf args) rnd w0)
    by (by rewrite UpdateLocked_unfold).
  assert (Hlen0 : length (subchannel_data_ l0) = length addrs)
    by (unfold l0; simpl; by rewrite length_map).
  pose proof (λ l1 cs l2, StartWatchingLocked_fresh poll addrs l1 cs l2 Hsz)
    as Hafter.
  split.
  - split.
    + intros [[[] w'] HU]. rewrite Hrun in HU.
      destruct (StartWatchingLocked_inv _ _ _ _ _ _ HU)
        as (l & l1 & cs & l2 & Hl & HP & HW).
      rewrite Hl0 in Hl. simplify_eq.
      by destruct (Hafter _ _ _ HP HW) as (_ & _ & _ & ?).
    + intros Hpoll.
      destruct (StartWatchingLocked_poll_total poll
                  (length (subchannel_data_ l0)) 0 l0 Hlok0) as [l1 HP];
        [lia | |].
      { simpl. apply Forall_fmap, Forall_forall. intros a Ha sc [= <-].
        by eapply (proj1 (Forall_forall _ _) Hpoll). }
      destruct (StartWatchingLocked_watch_total
                  (length (subchannel_data_ l1)) 0 l1) as [[cs l2] HW]; [lia |].
      destruct (Hafter _ _ _ HP HW) as (Hok2 & _).
      rewrite Hrun, (StartWatchingLocked_run _ _ _ _ _ _ _ _ _ Hl0 HP HW).
      match goal with
      | |- is_Some (MaybeUpdateRoundRobinConnectivityStateLocked _ ?st _ ?w1) =>
          assert (Hok1 : world_ok w1) by (by eapply world_ok_store_trace);
          destruct (MaybeUpdate_spec this st rnd w1 l2
                      (lookup_insert_eq _ _ _) Hok2 (wok_active _ Hok1))
            as (w' & report & -> & _)
      end.
      by eexists.
  - intros w' HU. rewrite Hrun in HU.
    destruct (StartWatchingLocked_inv _ _ _ _ _ _ HU)
      as (l & l1 & cs & l2 & Hl & HP & HW).
    rewrite Hl0 in Hl. simplify_eq.
    destruct (Hafter _ _ _ HP HW) as (Hok2 & Hd2 & -> & _).
    rewrite (StartWatchingLocked_run _ _ _ _ _ _ _ _ _ Hl0 HP HW) in HU.
    match type of HU with
    | MaybeUpdateRoundRobinConnectivityStateLocked _ ?st _ ?wx = _ =>
        set (w1 := wx) in *;
        assert (Hok1 : world_ok w1) by (by eapply world_ok_store_trace);
        destruct (MaybeUpdate_spec this st rnd w1 l2
                    (lookup_insert_eq _ _ _) Hok2 (wok_active _ Hok1))
          as (w'' & report & HM & _ & Hp & Hnp & Ht & _ & _ & Hus)
    end.
    rewrite HU in HM. injection HM as <-.
    exists l2, report.
    assert (Hpend1 : latest_pending_subchannel_list_ (policy w1) = Some this)
      by done.
    assert (Hheap : heap w' !! this = Some l2
                    ∧ (subchannel_list_ (policy w') = Some this
                       ∨ latest_pending_subchannel_list_ (policy w')
                         = Some this)).
    { destruct (swap_cond_dec this l2 w1) as [Hc | Hc].
      - destruct (Hp Hc) as [-> ->]. split; [| by left].
        destruct (subchannel_list_ (policy w1)) as [a |] eqn:Ha;
          [| apply lookup_insert_eq].
        rewrite lookup_delete_ne; [apply lookup_insert_eq |].
        intros ->. by apply (wok_distinct w1 Hok1 this).
      - destruct (Hnp Hc) as [-> ->]. split; [apply lookup_insert_eq |].
        by right. }
    destruct Hheap as [Hheap Hcur].
    split; [done |]. split; [done |].
    rewrite (ok_ready l2 Hok2), (ok_connecting l2 Hok2),
            (ok_transient_failure l2 Hok2), Hd2, !count_state_polled.
    split; [done |]. split; [done |]. split; [done |]. split; [done |].
    split; [| done]. rewrite Ht. subst w1. simpl. by rewrite <- app_assoc.
Qed.

Lemma X11_witness :
  world_ok initial_world ∧ (Z.of_nat (length [1; 3]) < size_t_modulus)%Z ∧
  is_Some (UpdateLocked example_poll (mkUpdateArgs (StatusOr_ok [1; 3]) "") 0
                        initial_world).
Proof.
  assert (Hsz : (Z.of_nat (length [1; 3]) < size_t_modulus)%Z)
    by reflexivity.
  split; [exact world_ok_initial |]. split; [exact Hsz |].
  apply (proj1 (X11_update_initial_states example_poll [1; 3] "" 0
                  initial_world world_ok_initial Hsz)).
  repeat constructor; discriminate.
Defined.

(** ** Updates, shutdown and destruction *)

(** X12. An update with an empty address list always returns; the new
    empty list is the active list at once, the previous active and pending
    lists are destroyed, and TRANSIENT_FAILURE is reported with the status
    "empty address list: " followed by the resolution note, whatever the
    state of the policy was. *)
Theorem X12_empty_update_replaces_active
    (poll : SubchannelInterface → grpc_connectivity_state)
    (note : string) (rnd : Z) (w : World) :
  world_ok w →
  let st := UnavailableError ("empty address list: " +:+ note) in
  ∃ w',
    UpdateLocked poll (mkUpdateArgs (StatusOr_ok []) note) rnd w
    = Some ((), w') ∧
    policy w' = mkRoundRobin (Some (next_ptr w)) None (shutdown_ (policy w)) ∧
    heap w' !! next_ptr w = Some (RoundRobinSubchannelList_ctor []) ∧
    (∀ a, subchannel_list_ (policy w) = Some a
          ∨ latest_pending_subchannel_list_ (policy w) = Some a →
          heap w' !! a = None) ∧
    trace w' = trace w ++ [UpdateState GRPC_CHANNEL_TRANSIENT_FAILURE st
                                       (TransientFailurePicker st)].
Proof.
  intros Hok st.
  set (this := next_ptr w). set (w0 := created [] w).
  set (l0 := RoundRobinSubchannelList_ctor []).
  assert (Hok0 : world_ok w0).
  { apply world_ok_created; [done |]. simpl. unfold size_t_modulus. lia. }
  assert (Hl0 : heap w0 !! this = Some l0) by (by apply created_lookup_new).
  assert (Hrun : UpdateLocked poll (mkUpdateArgs (StatusOr_ok []) note) rnd w
                 = MaybeUpdateRoundRobinConnectivityStateLocked this st rnd w0).
  { rewrite UpdateLocked_unfold. simpl.
    rewrite (StartWatchingLocked_run poll this _ rnd w0 l0 l0 [] l0 Hl0
               eq_refl eq_refl).
    rewrite insert_id, app_nil_r by done. done. }
  destruct (MaybeUpdate_spec this st rnd w0 l0 Hl0 (wok_lists _ Hok0 _ _ Hl0)
              (wok_active _ Hok0))
    as (w' & report & HM & _ & Hp & _ & Ht & _ & Hrep & _).
  assert (Hc : swap_cond this l0 w0).
  { split; [done |]. right. right. right. done. }
  destruct (Hp Hc) as [Hpol Hheap].
  destruct Hrep as (_ & _ & Htf & _); [by rewrite Hpol |].
  exists w'. split; [by rewrite Hrun |]. split; [done |].
  assert (Hfresh : ∀ a, is_Some (heap w !! a) → a ≠ this).
  { intros a Ha ->. pose proof (wok_next w Hok _ Ha). unfold this in *. lia. }
  split; [| split].
  - rewrite Hheap. simpl.
    destruct (subchannel_list_ (policy w)) as [a |] eqn:Ha; [| done].
    rewrite lookup_delete_ne; [done |].
    by apply Hfresh, (wok_active w Hok).
  - intros a Ha. rewrite Hheap. simpl.
    destruct (subchannel_list_ (policy w)) as [b |] eqn:Hb.
    + destruct (decide (b = a)) as [-> | Hne]; [apply lookup_delete_eq |].
      rewrite lookup_delete_ne by done.
      destruct Ha as [? | Ha]; [congruence |]. rewrite Ha.
      apply lookup_delete_eq.
    + destruct Ha as [? | Ha]; [done |]. rewrite Ha. apply lookup_delete_eq.
  - rewrite Ht. simpl. by rewrite Htf.
Qed.

Lemma X12_witness :
  world_ok example_world_1 ∧
  ∃ w', UpdateLocked example_poll (mkUpdateArgs (StatusOr_ok []) "gone") 0
          example_world_1 = Some ((), w') ∧
        heap w' !! 0 = None.
Proof.
  assert (Hok : world_ok example_world_1)
    by exact (reachable_world_ok _ example_world_1_reachable).
  split; [exact Hok |].
  destruct (X12_empty_update_replaces_active example_poll "gone" 0
              example_world_1 Hok) as (w' & HU & _ & _ & Hgone & _).
  exists w'. split; [exact HU |].
  apply Hgone. left. vm_compute. reflexivity.
Defined.

Lemma MaybeUpdate_owned this st rnd w w' :
  world_ok w →
  (∀ a, is_Some (heap w !! a) →
        subchannel_list_ (policy w) = Some a
        ∨ latest_pending_subchannel_list_ (policy w) = Some a) →
  (latest_pending_subchannel_list_ (policy w) ≠ None →
   subchannel_list_ (policy w) ≠ None
   ∨ latest_pending_subchannel_list_ (policy w) = Some this) →
  MaybeUpdateRoundRobinConnectivityStateLocked this st rnd w = Some ((), w') →
  lists_owned w'.
Proof.
  intros Hok Hkeys Hpend HM.
  destruct (heap w !! this) as [l |] eqn:Hl;
    [| by unfold MaybeUpdateRoundRobinConnectivityStateLocked, bind, load in HM;
          rewrite Hl in HM].
  destruct (MaybeUpdate_spec this st rnd w l Hl (wok_lists w Hok _ _ Hl)
              (wok_active w Hok))
    as (w'' & report & HM' & _ & Hp & Hnp & _).
  rewrite HM in HM'. injection HM' as <-.
  destruct (swap_cond_dec this l w) as [Hc | Hc].
  - destruct (Hp Hc) as [Hpol Hheap]. destruct Hc as [Hthis _].
    split; rewrite Hpol; simpl; [| done].
    intros a [la Ha]. left. f_equal. rewrite Hheap in Ha.
    destruct (subchannel_list_ (policy w)) as [b |] eqn:Hb.
    + apply lookup_delete_Some in Ha as [Hne Ha].
      destruct (Hkeys a (ex_intro _ la Ha)) as [? | ?]; congruence.
    + destruct (Hkeys a (ex_intro _ la Ha)) as [? | ?]; congruence.
  - destruct (Hnp Hc) as [Hpol Hheap]. split; rewrite Hpol, ?Hheap; [done |].
    intros Hpn. destruct (Hpend Hpn) as [? | Hthis]; [done |].
    intros Hnone. apply Hc. split; auto.
Qed.

Lemma StartWatchingLocked_owned poll this st rnd w w' :
  world_ok w →
  (∀ a, is_Some (heap w !! a) →
        subchannel_list_ (policy w) = Some a
        ∨ latest_pending_subchannel_list_ (policy w) = Some a) →
  latest_pending_subchannel_list_ (policy w) = Some this →
  StartWatchingLocked poll this st rnd w = Some ((), w') →
  lists_owned w'.
Proof.
  intros Hok Hkeys Hpend HS.
  destruct (heap w !! this) as [l |] eqn:Hl;
    [| by unfold StartWatchingLocked, bind, load in HS; rewrite Hl in HS].
  destruct (StartWatchingLocked_spec _ _ _ _ _ _ _ Hok Hl HS)
    as (l2 & _ & _ & Hok1 & HM).
  eapply MaybeUpdate_owned; [exact Hok1 | | | exact HM]; simpl.
  - intros a Ha. apply Hkeys. apply lookup_insert_is_Some in Ha.
    destruct Ha as [<- | [_ ?]]; [eauto | done].
  - auto.
Qed.

Lemma run_op_owned o w w' :
  world_ok w → lists_owned w → valid_op o →
  run_op o w = Some ((), w') → lists_owned w'.
Proof.
  intros Hok [Hkeys Hpa] Hv Hrun. destruct o as [poll args rnd | this i raw rnd | |];
    simpl in *.
  - rewrite UpdateLocked_unfold in Hrun.
    assert (Hcreated : ∀ addrs,
      (Z.of_nat (length addrs) < size_t_modulus)%Z →
      StartWatchingLocked poll (next_ptr w) (UpdateLocked_status_for_tf args)
        rnd (created addrs w) = Some ((), w') → lists_owned w').
    { intros addrs Hsz HS.
      eapply StartWatchingLocked_owned;
        [by apply world_ok_created | | | exact HS]; [| done].
      intros a [la Ha]. apply created_lookup_Some in Ha.
      destruct Ha as [[-> _] | (_ & Ha & Hnp)]; [by right |].
      left. destruct (Hkeys a (ex_intro _ la Ha)); [done | by destruct Hnp]. }
    unfold valid_args in Hv.
    destruct (addresses args) as [addrs | st]; [by eapply Hcreated |].
    destruct (decide (subchannel_list_ (policy w) ≠ None)).
    + injection Hrun as <-. by split.
    + eapply Hcreated; [| exact Hrun]. simpl. unfold size_t_modulus. lia.
  - destruct (ProcessConnectivityChangeLocked_inv _ _ _ _ _ _ Hrun)
      as (l & sd & sc & b & l' & Hl & Hi & Hsc & HU).
    destruct (UpdateLogical_preserves l i raw b l' (wok_lists w Hok _ _ Hl) HU)
      as (Hok' & _).
    rewrite (ProcessConnectivityChangeLocked_run this i raw rnd w l sd sc
               b l' Hl Hi Hsc HU) in Hrun.
    assert (Hkeys1 : ∀ a, is_Some (<[this := l']> (heap w) !! a) →
              subchannel_list_ (policy w) = Some a
              ∨ latest_pending_subchannel_list_ (policy w) = Some a).
    { intros a Ha. apply Hkeys. apply lookup_insert_is_Some in Ha.
      destruct Ha as [<- | [_ ?]]; [eauto | done]. }
    destruct b.
    + eapply MaybeUpdate_owned; [| | | exact Hrun];
        [by eapply world_ok_store_trace | exact Hkeys1 | simpl; auto].
    + injection Hrun as <-. by split.
  - destruct (ResetBackoffLocked_frame _ _ Hrun) as (Hp & Hh & _).
    split; rewrite Hp, ?Hh; done.
  - rewrite ShutdownLocked_unfold in Hrun. injection Hrun as <-.
    split; simpl; [| done].
    intros a [la Ha]. exfalso.
    destruct (latest_pending_subchannel_list_ (policy w)) as [q |] eqn:Hq;
      destruct (subchannel_list_ (policy w)) as [p |] eqn:Hp; simpl in Ha;
      rewrite ?lookup_delete_Some in Ha;
      repeat match type of Ha with _ ∧ _ => destruct Ha as [? Ha] end;
      destruct (Hkeys a (ex_intro _ la Ha)) as [? | ?]; congruence.
Qed.

Lemma reachable_lists_owned w : reachable w → lists_owned w.
Proof.
  induction 1 as [| w w' o Hr IH Hv Hrun].
  - split; [| done]. intros a [la Ha]. simpl in Ha.
    by rewrite lookup_empty in Ha.
  - eapply run_op_owned; [by apply reachable_world_ok | done | done | done].
Qed.

(** X13. In every state the policy reaches, each list in the store is the
    active or the pending list, and a pending list exists only beside an
    active one; the assertions of the destructor hold exactly when no list
    is left, and they hold after [ShutdownLocked], which leaves no list. *)
Theorem X13_lists_owned_and_released (w : World) :
  reachable w →
  lists_owned w ∧
  (is_Some (RoundRobin_dtor w) ↔ heap w = ∅) ∧
  ∀ w1, ShutdownLocked w = Some ((), w1) →
        heap w1 = ∅ ∧ RoundRobin_dtor w1 = Some ((), w1).
Proof.
  intros Hr. pose proof (reachable_world_ok w Hr) as Hok.
  pose proof (reachable_lists_owned w Hr) as [Hkeys Hpa].
  split; [by split |]. split.
  - unfold RoundRobin_dtor, bind, get_policy, lift. split.
    + intros Hd. apply map_empty. intros a.
      destruct (heap w !! a) as [la |] eqn:Ha; [| done]. exfalso.
      destruct (Hkeys a (ex_intro _ la Ha)) as [H | H]; rewrite H in Hd;
        simpl in Hd.
      * by destruct Hd.
      * destruct (subchannel_list_ (policy w)); simpl in Hd; by destruct Hd.
    + intros Hempty.
      assert (Ha : subchannel_list_ (policy w) = None).
      { destruct (subchannel_list_ (policy w)) as [a |] eqn:Ha; [| done].
        destruct (wok_active w Hok a Ha) as [la Hla].
        by rewrite Hempty, lookup_empty in Hla. }
      assert (Hp : latest_pending_subchannel_list_ (policy w) = None).
      { destruct (latest_pending_subchannel_list_ (policy w)) as [a |] eqn:Hp;
          [| done].
        destruct (wok_pending w Hok a Hp) as [la Hla].
        by rewrite Hempty, lookup_empty in Hla. }
      rewrite Ha, Hp. simpl. by eexists.
  - intros w1 HS.
    assert (Hr1 : reachable w1)
      by (by eapply (reachable_step w w1 Op_Shutdown)).
    pose proof (reachable_lists_owned w1 Hr1) as [Hkeys1 _].
    rewrite ShutdownLocked_unfold in HS. injection HS as <-.
    split; [| done].
    apply map_empty. intros a.
    match goal with |- ?m !! a = None =>
      destruct (m !! a) as [la |] eqn:Ha; [| done] end.
    destruct (Hkeys1 a (ex_intro _ la Ha)) as [? | ?]; done.
Qed.

Lemma X13_witness :
  reachable example_world_2 ∧ lists_owned example_world_2.
Proof.
  split; [exact example_world_2_reachable |].
  exact (proj1 (X13_lists_owned_and_released example_world_2
                  example_world_2_reachable)).
Defined.

(** X14. In a consistent state [ResetBackoffLocked] returns exactly when
    there is an active list; it then changes nothing but the trace, to
    which it adds the backoff resets of the active list followed by those
    of the pending list, if any. *)
Theorem X14_ResetBackoff_forwards_only (w : World) :
  world_ok w →
  (is_Some (ResetBackoffLocked w) ↔ subchannel_list_ (policy w) ≠ None) ∧
  ∀ w', ResetBackoffLocked w = Some ((), w') →
    policy w' = policy w ∧ heap w' = heap w ∧ next_ptr w' = next_ptr w ∧
    ∃ a la,
      subchannel_list_ (policy w) = Some a ∧ heap w !! a = Some la ∧
      trace w'
      = trace w
        ++ SubchannelList_ResetBackoffLocked la
        ++ match latest_pending_subchannel_list_ (policy w) with
           | Some q =>
               match heap w !! q with
               | Some lq => SubchannelList_ResetBackoffLocked lq
               | None => []
               end
           | None => []
           end.
Proof.
  intros Hok.
  destruct w as [[act pend sh] h n tr].
  unfold ResetBackoffLocked, bind, get_policy, lift, load, call, ret.
  simpl in *. split.
  - destruct act as [a |]; simpl.
    + destruct (wok_active _ Hok a eq_refl) as [la Hla]. simpl in Hla.
      rewrite Hla. simpl. split; [done |]. intros _.
      destruct pend as [q |]; simpl; [| by eexists].
      destruct (wok_pending _ Hok q eq_refl) as [lq Hlq]. simpl in Hlq.
      rewrite Hlq. by eexists.
    + split; [by intros [? ?] | done].
  - intros w'. destruct act as [a |]; simpl; [| done].
    destruct (wok_active _ Hok a eq_refl) as [la Hla]. simpl in Hla.
    rewrite Hla. simpl.
    destruct pend as [q |]; simpl.
    + destruct (wok_pending _ Hok q eq_refl) as [lq Hlq]. simpl in Hlq.
      rewrite Hlq. simpl. intros [= <-]. simpl.
      split; [done |]. split; [done |]. split; [done |].
      exists a, la. split; [done |]. split; [done |].
      by rewrite <- app_assoc.
    + intros [= <-]. simpl.
      split; [done |]. split; [done |]. split; [done |].
      exists a, la. split; [done |]. split; [done |].
      by rewrite app_nil_r.
Qed.

Lemma X14_witness :
  world_ok example_world_2 ∧ is_Some (ResetBackoffLocked example_world_2).
Proof.
  assert (Hok : world_ok example_world_2)
    by exact (reachable_world_ok _ example_world_2_reachable).
  split; [exact Hok |].
  apply (proj1 (X14_ResetBackoff_forwards_only example_world_2 Hok)).
  vm_compute. discriminate.
Defined.

Lemma StartWatchingLocked_shutdown_flag poll this st rnd w w' :
  world_ok w → StartWatchingLocked poll this st rnd w = Some ((), w') →
  shutdown_ (policy w') = shutdown_ (policy w).
Proof.
  intros Hok HS.
  destruct (heap w !! this) as [l |] eqn:Hl;
    [| by unfold StartWatchingLocked, bind, load in HS; rewrite Hl in HS].
  destruct (StartWatchingLocked_spec _ _ _ _ _ _ _ Hok Hl HS)
    as (l2 & _ & _ & Hok1 & HM).
  by destruct (MaybeUpdate_heap _ _ _ _ _ Hok1 HM) as (_ & -> & _).
Qed.

(** X15. Only [ShutdownLocked] writes the shutdown flag: it sets it, and
    every other operation leaves it as it was. *)
Theorem X15_shutdown_flag_written_by_shutdown_only (o : Op) (w w' : World) :
  world_ok w → valid_op o → run_op o w = Some ((), w') →
  shutdown_ (policy w')
  = match o with
    | Op_Shutdown => true
    | _ => shutdown_ (policy w)
    end.
Proof.
  intros Hok Hv Hrun.
  destruct o as [poll args rnd | this i raw rnd | |]; simpl in *.
  - rewrite UpdateLocked_unfold in Hrun. unfold valid_args in Hv.
    destruct (addresses args) as [addrs | st].
    + rewrite (StartWatchingLocked_shutdown_flag _ _ _ _ _ _
                 (world_ok_created addrs w Hok Hv) Hrun). done.
    + destruct (decide (subchannel_list_ (policy w) ≠ None)).
      * by injection Hrun as <-.
      * rewrite (StartWatchingLocked_shutdown_flag _ _ _ _ _ _
                   (world_ok_created [] w Hok ltac:(simpl; unfold size_t_modulus; lia))
                   Hrun). done.
  - destruct (ProcessConnectivityChangeLocked_inv _ _ _ _ _ _ Hrun)
      as (l & sd & sc & b & l' & Hl & Hi & Hsc & HU).
    destruct (UpdateLogical_preserves l i raw b l' (wok_lists w Hok _ _ Hl) HU)
      as (Hok' & _).
    rewrite (ProcessConnectivityChangeLocked_run this i raw rnd w l sd sc
               b l' Hl Hi Hsc HU) in Hrun.
    destruct b.
    + match type of Hrun with
      | MaybeUpdateRoundRobinConnectivityStateLocked _ _ _ ?w1 = _ =>
          assert (Hok1 : world_ok w1) by (by eapply world_ok_store_trace);
          by destruct (MaybeUpdate_heap _ _ _ _ _ Hok1 Hrun) as (_ & -> & _)
      end.
    + by injection Hrun as <-.
  - by destruct (ResetBackoffLocked_frame _ _ Hrun) as (-> & _).
  - rewrite ShutdownLocked_unfold in Hrun. by injection Hrun as <-.
Qed.

Lemma X15_witness :
  world_ok example_world_1 ∧ valid_op example_update_2 ∧
  ∃ w', run_op example_update_2 example_world_1 = Some ((), w') ∧
        shutdown_ (policy w') = shutdown_ (policy example_world_1).
Proof.
  assert (Hok : world_ok example_world_1)
    by exact (reachable_world_ok _ example_world_1_reachable).
  assert (Hv : valid_op example_update_2) by reflexivity.
  split; [exact Hok |]. split; [exact Hv |].
  eexists. split; [vm_compute; reflexivity |].
  match goal with
  | |- shutdown_ (policy ?w') = _ =>
      assert (Hrun : run_op example_update_2 example_world_1 = Some ((), w'))
        by (vm_compute; reflexivity);
      exact (X15_shutdown_flag_written_by_shutdown_only example_update_2
               example_world_1 w' Hok Hv Hrun)
  end.
Defined.
